(** * The statistics wrapper of [_stats_wrapper.c]

    A shallow embedding of the C extension type [_StatsWrapper]: the slot
    registry ([arginfo]), the classification of one argument
    ([handle_arg_stats]), the call path ([statswrapper_vectorcall]), the
    accessors and the factory ([stats_wrapper_create]).

    Conventions of the embedding.
    - [Py_ssize_t] values are integers of [Z]; the source increments them
      with [++], whose overflow is undefined in C: an increment at
      [PY_SSIZE_T_MAX] has no defined result here either ([None]).
    - An array read or write outside its bounds is undefined in C and is
      [None] here as well.
    - A [PyObject *] is an element of an abstract type with decidable
      identity (pointer equality); the interpreter services the source
      calls are the fields of [PyRuntime].  Rich comparison and the wrapped
      callable are taken as functions of their arguments: they do not call
      back into the wrapper they are used by.  Where a property spans
      several calls and the callable may answer differently from one call
      to the next, each call is given an answer of its own
      ([with_callable]). *)

From Stdlib Require Import ZArith Lia Bool.
From stdpp Require Import base decidable option list numbers strings relations.

Local Open Scope Z_scope.

(** ** The interpreter, as far as the source uses it *)

(** The class a pending exception matches, in the sense of
    [PyErr_ExceptionMatches]. *)
Inductive PyExc : Set :=
  | PyExc_RecursionError
  | PyExc_MemoryError
  | PyExc_KeyboardInterrupt
  | PyExc_ValueError
  | PyExc_TypeError
  | PyExc_OverflowError
  | PyExc_Exception.

#[global] Instance PyExc_eq_dec : EqDecision PyExc.
Proof. solve_decision. Defined.

(** What a C function that returns [PyObject *] hands back: an object, or
    [NULL] with the error indicator set. *)
Inductive PyResult (PyObject : Type) : Type :=
  | PyReturn (v : PyObject)
  | PyRaise (e : PyExc).
Arguments PyReturn {PyObject} v.
Arguments PyRaise {PyObject} e.

(** The answer of [PyObject_RichCompareBool]: the [int] it returns is
    [eq_int], and on [-1] the error indicator holds [e]. *)
Inductive cmp : Set :=
  | CmpFalse
  | CmpTrue
  | CmpError (e : PyExc).

#[global] Instance cmp_eq_dec : EqDecision cmp.
Proof. solve_decision. Defined.

Definition eq_int (r : cmp) : Z :=
  match r with
  | CmpFalse => 0
  | CmpTrue => 1
  | CmpError _ => -1
  end.

Definition Py_EQ : Z := 2.

Class PyRuntime (PyObject : Type) := {
  (** [==] on pointers *)
  PyObject_identity :: EqDecision PyObject;
  Py_None : PyObject;
  (** [PyTuple_Check] together with the items of the tuple *)
  PyTuple_Check : PyObject -> option (list PyObject);
  (** the canonical object [PyUnicode_InternInPlace] stores back *)
  PyUnicode_InternInPlace : PyObject -> PyObject;
  PyObject_RichCompareBool : PyObject -> PyObject -> Z -> cmp;
  PyObject_Vectorcall :
    PyObject -> list PyObject -> Z -> option (list PyObject) -> PyResult PyObject;
  (** the converted integer, or [-1] with the error indicator set *)
  PyLong_AsSsize_t : PyObject -> Z + PyExc;
}.

(** [Py_ssize_t] on a 64-bit platform. *)
Definition PY_SSIZE_T_MAX : Z := 2 ^ 63 - 1.
Definition PY_SSIZE_T_MIN : Z := - 2 ^ 63.

(** [x++] and [x + y] on [Py_ssize_t]: undefined on overflow. *)
Definition ssize_add (x y : Z) : option Z :=
  let r := x + y in
  if (PY_SSIZE_T_MIN <=? r) && (r <=? PY_SSIZE_T_MAX) then Some r else None.

Definition ssize_incr (x : Z) : option Z := ssize_add x 1.

(** [PyVectorcall_NARGS(n)] is [n & ~PY_VECTORCALL_ARGUMENTS_OFFSET], the
    flag being the top bit of a [size_t]. *)
Definition PY_VECTORCALL_ARGUMENTS_OFFSET : Z := Z.shiftl 1 63.

Definition PyVectorcall_NARGS (n : Z) : Z :=
  Z.land (n mod 2 ^ 64) (Z.lxor PY_VECTORCALL_ARGUMENTS_OFFSET (Z.ones 64)).

(** The three exception classes [handle_arg_stats] lets through. *)
Definition critical (e : PyExc) : bool :=
  match e with
  | PyExc_RecursionError | PyExc_MemoryError | PyExc_KeyboardInterrupt => true
  | _ => false
  end.

(** The [int] a helper returns: [0], or [-1] with the error indicator set. *)
Inductive status : Set :=
  | OK
  | ERR (e : PyExc).

Section StatsWrapper.

Context {PyObject : Type} `{!PyRuntime PyObject}.

(** ** Data *)

(** [known_params] is the tuple given at construction, held as its items;
    [param_counts] is the array allocated next to it ([NULL] is the empty
    list). *)
Record arginfo : Type := {
  kwname : option PyObject;
  known_params : option (list PyObject);
  count : Z;
  param_counts : list Z;
}.

(** [args] holds [Py_SIZE(self)] entries: one per declared parameter and a
    terminator without [kwname].  The [dict] and [vectorcall] fields are
    read by none of the functions below and are left out. *)
Record StatsWrapperObject : Type := {
  ob_size : Z;
  wrapped : PyObject;
  total_calls : Z;
  invalid_args : Z;
  error_results : Z;
  npos : Z;
  npos_only : Z;
  args : list arginfo;
}.

Definition Py_SIZE (self : StatsWrapperObject) : Z := ob_size self.

Definition with_count (a : arginfo) (c : Z) : arginfo :=
  {| kwname := kwname a; known_params := known_params a;
     count := c; param_counts := param_counts a |}.

Definition with_param_counts (a : arginfo) (pc : list Z) : arginfo :=
  {| kwname := kwname a; known_params := known_params a;
     count := count a; param_counts := pc |}.

Definition with_args (self : StatsWrapperObject) (l : list arginfo)
  : StatsWrapperObject :=
  {| ob_size := ob_size self; wrapped := wrapped self;
     total_calls := total_calls self; invalid_args := invalid_args self;
     error_results := error_results self; npos := npos self;
     npos_only := npos_only self; args := l |}.

Definition with_npos (self : StatsWrapperObject) (n : Z) : StatsWrapperObject :=
  {| ob_size := ob_size self; wrapped := wrapped self;
     total_calls := total_calls self; invalid_args := invalid_args self;
     error_results := error_results self; npos := n;
     npos_only := npos_only self; args := args self |}.

(** ** [handle_arg_stats] *)

(** The first loop: the index at which [known_params[idx] == arg], or the
    index one past the end. *)
Fixpoint identity_scan (known : list PyObject) (arg : PyObject) (idx : Z) : Z :=
  match known with
  | [] => idx
  | k :: rest =>
      if decide (k = arg) then idx else identity_scan rest arg (idx + 1)
  end.

(** The second loop.  [inr e] is [return -1]; [inl idx] is the index at
    which the loop is left.  After [PyErr_Clear()] the source goes on to
    [if (eq) break;] with [eq] still [-1]. *)
Fixpoint equality_scan (known : list PyObject) (arg : PyObject) (idx : Z)
  : Z + PyExc :=
  match known with
  | [] => inl idx
  | k :: rest =>
      let r := PyObject_RichCompareBool k arg Py_EQ in
      let eq := eq_int r in
      match r with
      | CmpError e =>
          if critical e then inr e
          else if eq =? 0 then equality_scan rest arg (idx + 1) else inl idx
      | _ =>
          if eq =? 0 then equality_scan rest arg (idx + 1) else inl idx
      end
  end.

Definition handle_arg_stats (a : arginfo) (arg : PyObject)
  : option (arginfo * status) :=
  c ← ssize_incr (count a);
  let a1 := with_count a c in
  match known_params a1 with
  | None => Some (a1, OK)
  | Some known =>
      let n_params := Z.of_nat (length known) in
      let idx := identity_scan known arg 0 in
      let found :=
        if idx =? n_params then equality_scan known arg 0 else inl idx in
      match found with
      | inr e => Some (a1, ERR e)
      | inl idx =>
          if idx =? n_params then Some (a1, OK)
          else
            pc ← param_counts a1 !! Z.to_nat idx;
            pc' ← ssize_incr pc;
            Some (with_param_counts a1 (<[Z.to_nat idx := pc']> (param_counts a1)), OK)
      end
  end.

(** ** [statswrapper_vectorcall] *)

(** [for (i = 0; i < nargs_valid; i++)], with [n] iterations left. *)
Fixpoint positional_loop (n : nat) (i : Z) (slots : list arginfo)
    (argv : list PyObject) : option (list arginfo * status) :=
  match n with
  | O => Some (slots, OK)
  | S n' =>
      a ← slots !! Z.to_nat i;
      x ← argv !! Z.to_nat i;
      '(a', st) ← handle_arg_stats a x;
      let slots' := <[Z.to_nat i := a']> slots in
      match st with
      | ERR e => Some (slots', ERR e)
      | OK => positional_loop n' (i + 1) slots' argv
      end
  end.

(** Where the pointer [curr_arginfo] stands when a [while] loop over the
    names is left.  [tail] is the array from [curr_arginfo] on and [p] the
    index of its first entry; walking off the array is undefined. *)
Fixpoint identity_walk (tail : list arginfo) (name : PyObject) (p : nat)
  : option nat :=
  match tail with
  | [] => None
  | a :: rest =>
      match kwname a with
      | None => Some p
      | Some k =>
          if decide (k = name) then Some p else identity_walk rest name (S p)
      end
  end.

Fixpoint equality_walk (tail : list arginfo) (name : PyObject) (p : nat)
  : option (nat + PyExc) :=
  match tail with
  | [] => None
  | a :: rest =>
      match kwname a with
      | None => Some (inl p)
      | Some k =>
          let r := PyObject_RichCompareBool k name Py_EQ in
          let eq := eq_int r in
          match r with
          | CmpError e => Some (inr e)
          | _ => if eq =? 0 then equality_walk rest name (S p) else Some (inl p)
          end
      end
  end.

(** Lines 95-119: the entry [curr_arginfo] points to after both loops, or
    the error of a failed comparison. *)
Definition find_arginfo (slots : list arginfo) (first : Z) (name : PyObject)
  : option (nat + PyExc) :=
  if first <? 0 then None
  else
    let start := Z.to_nat first in
    p ← identity_walk (drop start slots) name start;
    a ← slots !! p;
    match kwname a with
    | Some _ => Some (inl p)
    | None => equality_walk (drop start slots) name start
    end.

(** [for (i = 0; i < nkwargs; i++)] over the names still to be seen;
    [invalid] is the local flag [invalid_args]. *)
Fixpoint keyword_loop (names : list PyObject) (i : Z) (nargs : Z) (first : Z)
    (slots : list arginfo) (argv : list PyObject) (invalid : Z)
  : option (list arginfo * Z * status) :=
  match names with
  | [] => Some (slots, invalid, OK)
  | name :: rest =>
      arg ← (if nargs + i <? 0 then None else argv !! Z.to_nat (nargs + i));
      found ← find_arginfo slots first name;
      match found with
      | inr e => Some (slots, invalid, ERR e)
      | inl p =>
          a ← slots !! p;
          match kwname a with
          | Some _ =>
              '(a', st) ← handle_arg_stats a arg;
              let slots' := <[p := a']> slots in
              match st with
              | ERR e => Some (slots', invalid, ERR e)
              | OK => keyword_loop rest (i + 1) nargs first slots' argv invalid
              end
          | None => keyword_loop rest (i + 1) nargs first slots argv 1
          end
      end
  end.

(** How a call ends: [Aborted] is one of the three [return NULL] inside the
    loops, before [PyObject_Vectorcall] is reached; [Delegated] is the
    [return res] at the end. *)
Inductive call_outcome : Type :=
  | Aborted (self' : StatsWrapperObject) (e : PyExc)
  | Delegated (self' : StatsWrapperObject) (res : PyResult PyObject).

Definition statswrapper_vectorcall (self : StatsWrapperObject)
    (argv : list PyObject) (len_args : Z) (kwnames : option (list PyObject))
  : option call_outcome :=
  let nargs := PyVectorcall_NARGS len_args in
  let '(invalid, nargs_valid) :=
    if npos self <? nargs then (1, npos self) else (0, nargs) in
  '(slots1, st1) ← positional_loop (Z.to_nat nargs_valid) 0 (args self) argv;
  match st1 with
  | ERR e => Some (Aborted (with_args self slots1) e)
  | OK =>
      let names := default [] kwnames in
      '(slots2, invalid2, st2) ←
        keyword_loop names 0 nargs (npos_only self) slots1 argv invalid;
      match st2 with
      | ERR e => Some (Aborted (with_args self slots2) e)
      | OK =>
          tc ← ssize_incr (total_calls self);
          ia ← ssize_add (invalid_args self) invalid2;
          let res := PyObject_Vectorcall (wrapped self) argv len_args kwnames in
          er ← (match res with
                | PyRaise _ => ssize_incr (error_results self)
                | PyReturn _ => Some (error_results self)
                end);
          Some (Delegated
                  {| ob_size := ob_size self; wrapped := wrapped self;
                     total_calls := tc; invalid_args := ia;
                     error_results := er; npos := npos self;
                     npos_only := npos_only self; args := slots2 |}
                  res)
      end
  end.

(** ** Accessors *)

Definition statswrapper__get_counts (self : StatsWrapperObject) : Z * Z * Z :=
  (total_calls self, error_results self, invalid_args self).

(** One entry per declared parameter: name, count, known values and their
    counts ([None] stands for [Py_None]). *)
Definition statswrapper__get_param_stats (self : StatsWrapperObject)
  : list (option PyObject * Z * option (list PyObject) * option (list Z)) :=
  (λ a, (kwname a, count a, known_params a,
         match known_params a with
         | None => None
         | Some _ => Some (param_counts a)
         end))
  <$> take (Z.to_nat (Py_SIZE self - 1)) (args self).

(** The object after the call, the value returned ([None] is [NULL]) and
    the error indicator.  The range check sets the indicator and falls
    through to the assignment and to [Py_RETURN_NONE]. *)
Definition statswrapper__set_npos (self : StatsWrapperObject) (arg : PyObject)
  : StatsWrapperObject * option PyObject * option PyExc :=
  match PyLong_AsSsize_t arg with
  | inr e => (self, None, Some e)
  | inl n =>
      let err :=
        if (n <? npos_only self) || (Py_SIZE self - 1 <? n)
        then Some PyExc_ValueError else None in
      (with_npos self n, Some Py_None, err)
  end.

(** ** [stats_wrapper_create] *)

(** The entry the loop body leaves at index [i]: [inr] is the [TypeError]
    of a spec that is neither [None] nor a tuple. *)
Definition create_arginfo (nargs : Z) (i : Z) (spec : PyObject)
    (kwnames : list PyObject) : option (arginfo + PyExc) :=
  name ← (if i <? nargs then Some None
          else k ← kwnames !! Z.to_nat (i - nargs);
               Some (Some (PyUnicode_InternInPlace k)));
  if decide (spec = Py_None) then
    Some (inl {| kwname := name; known_params := None;
                 count := 0; param_counts := [] |})
  else
    match PyTuple_Check spec with
    | None => Some (inr PyExc_TypeError)
    | Some items =>
        Some (inl {| kwname := name; known_params := Some items;
                     count := 0; param_counts := replicate (length items) 0 |})
    end.

(** [for (i = 0; i < total_args; i++)], with [n] iterations left; the
    entries built so far are returned in order. *)
Fixpoint create_loop (n : nat) (i : Z) (nargs : Z) (specs : list PyObject)
    (kwnames : list PyObject) : option (list arginfo + PyExc) :=
  match n with
  | O => Some (inl [])
  | S n' =>
      spec ← specs !! Z.to_nat i;
      r ← create_arginfo nargs i spec kwnames;
      match r with
      | inr e => Some (inr e)
      | inl a =>
          rest ← create_loop n' (i + 1) nargs specs kwnames;
          match rest with
          | inr e => Some (inr e)
          | inl l => Some (inl (a :: l))
          end
      end
  end.

(** The entry [memset] leaves at the end of the array. *)
Definition terminator : arginfo :=
  {| kwname := None; known_params := None; count := 0; param_counts := [] |}.

(** Allocation ([PyObject_NewVar], [PyDict_New], [PyMem_Calloc]) is taken
    to succeed. *)
Definition stats_wrapper_create (argv : list PyObject) (len_args : Z)
    (kwnames : option (list PyObject)) : option (PyResult StatsWrapperObject) :=
  let nargs := PyVectorcall_NARGS len_args in
  if nargs <? 1 then Some (PyRaise PyExc_TypeError)
  else
    w ← argv !! 0%nat;
    let specs := drop 1 argv in
    let nargs := nargs - 1 in
    let names := default [] kwnames in
    let total_args := nargs + Z.of_nat (length names) in
    r ← create_loop (Z.to_nat total_args) 0 nargs specs names;
    match r with
    | inr e => Some (PyRaise e)
    | inl slots =>
        Some (PyReturn
                {| ob_size := total_args + 1; wrapped := w;
                   total_calls := 0; invalid_args := 0; error_results := 0;
                   npos := total_args; npos_only := nargs;
                   args := slots ++ [terminator] |})
    end.

(** ** Predicates used to state the properties *)

(** What construction fixes in an entry and no call changes. *)
Definition shape (a : arginfo) : option PyObject * option (list PyObject) * nat :=
  (kwname a, known_params a, length (param_counts a)).

(** An entry after some calls: same shape, no counter smaller. *)
Definition grows (a a' : arginfo) : Prop :=
  shape a' = shape a ∧
  count a ≤ count a' ∧
  Forall2 Z.le (param_counts a) (param_counts a').

(** The values of one entry classified in turn, none of them stopping the
    call. *)
Fixpoint classify_all (a : arginfo) (xs : list PyObject) : option arginfo :=
  match xs with
  | [] => Some a
  | x :: rest =>
      match handle_arg_stats a x with
      | Some (a', OK) => classify_all a' rest
      | _ => None
      end
  end.

(** The entry a keyword argument is counted in, if any. *)
Definition tracked_at (slots : list arginfo) (first : Z) (name : PyObject)
  : option nat :=
  match find_arginfo slots first name with
  | Some (inl p) =>
      match slots !! p with
      | Some a => if bool_decide (is_Some (kwname a)) then Some p else None
      | None => None
      end
  | _ => None
  end.

(** The keyword values counted in entry [k], in call order. *)
Fixpoint keyword_values (slots : list arginfo) (first : Z)
    (names vals : list PyObject) (k : nat) : list PyObject :=
  match names, vals with
  | name :: names', v :: vals' =>
      if decide (tracked_at slots first name = Some k)
      then v :: keyword_values slots first names' vals' k
      else keyword_values slots first names' vals' k
  | _, _ => []
  end.

(** The positional value counted in entry [k], if any. *)
Definition positional_values (argv : list PyObject) (nargs_valid : Z) (k : nat)
  : list PyObject :=
  if Z.of_nat k <? nargs_valid then option_list (argv !! k) else [].

(** The two loops of [handle_arg_stats] end in [return -1] with [e]. *)
Definition fatal_scan (known : list PyObject) (x : PyObject) (e : PyExc) : Prop :=
  identity_scan known x 0 = Z.of_nat (length known) ∧
  equality_scan known x 0 = inr e.

(** Well-formedness of a wrapper: what [stats_wrapper_create] establishes
    and the bounds the specification gives for [npos]. *)
Definition arginfo_ok (a : arginfo) : bool :=
  match known_params a with
  | None => true
  | Some known => Nat.eqb (length (param_counts a)) (length known)
  end.

Definition named (a : arginfo) : bool := bool_decide (is_Some (kwname a)).

(** The array ends in an entry without name. *)
Definition terminated (slots : list arginfo) : bool :=
  match last slots with
  | Some a => negb (named a)
  | None => false
  end.

(** A run of named entries closed by the terminator: the part of the array
    the keyword look-up walks over. *)
Fixpoint keyword_run (tail : list arginfo) : bool :=
  match tail with
  | [] => false
  | a :: rest =>
      match rest with
      | [] => negb (named a)
      | _ :: _ => named a && keyword_run rest
      end
  end.

Definition well_formed (self : StatsWrapperObject) : bool :=
  (ob_size self =? Z.of_nat (length (args self)))
  && (0 <=? npos_only self)
  && (npos_only self <=? npos self)
  && (npos self <=? ob_size self - 1)
  && forallb arginfo_ok (args self)
  && keyword_run (drop (Z.to_nat (npos_only self)) (args self)).

(** The caller passes [nargs] positional values followed by one value per
    keyword name. *)
Definition call_ok (argv : list PyObject) (len_args : Z)
    (kwnames : option (list PyObject)) : bool :=
  Z.of_nat (length argv)
  =? PyVectorcall_NARGS len_args + Z.of_nat (length (default [] kwnames)).

(** No counter is within [n] increments of [PY_SSIZE_T_MAX]. *)
Definition in_range (n : Z) (c : Z) : bool :=
  (0 <=? c) && (c + n <=? PY_SSIZE_T_MAX).

Definition room (n : Z) (a : arginfo) : bool :=
  in_range n (count a) && forallb (in_range n) (param_counts a).

Definition headroom (self : StatsWrapperObject) (n : Z) : bool :=
  in_range 1 (total_calls self)
  && in_range 1 (invalid_args self)
  && in_range 1 (error_results self)
  && forallb (room n) (args self).

(** No comparison of a known value with an argument of the call fails with
    one of the three critical exceptions (it may fail with another). *)
Definition cmp_critical (r : cmp) : bool :=
  match r with
  | CmpError e => critical e
  | _ => false
  end.

Definition cmp_failed (r : cmp) : bool :=
  match r with
  | CmpError _ => true
  | _ => false
  end.

Definition values_benign (slots : list arginfo) (argv : list PyObject) : bool :=
  forallb (λ a,
    match known_params a with
    | None => true
    | Some known =>
        forallb (λ x,
          forallb (λ k, negb (cmp_critical (PyObject_RichCompareBool k x Py_EQ)))
            known) argv
    end) slots.

(** No comparison of a stored name with a keyword name of the call fails. *)
Definition names_benign (slots : list arginfo) (names : list PyObject) : bool :=
  forallb (λ a,
    match kwname a with
    | None => true
    | Some k =>
        forallb (λ name, negb (cmp_failed (PyObject_RichCompareBool k name Py_EQ)))
          names
    end) slots.


(** ** The two searches as the specification words them *)

(** The index of the first element that passes [f], counted from [p]. *)
Fixpoint first_index {A : Type} (f : A -> bool) (l : list A) (p : nat)
  : option nat :=
  match l with
  | [] => None
  | y :: rest => if f y then Some p else first_index f rest (S p)
  end.

(** "First by identity across the known values in declared order, and only
    if no identity match is found, by value equality in the same order." *)
Definition match_index_spec (known : list PyObject) (x : PyObject) : option nat :=
  match first_index (λ k, bool_decide (k = x)) known 0 with
  | Some j => Some j
  | None =>
      first_index
        (λ k, bool_decide (PyObject_RichCompareBool k x Py_EQ = CmpTrue))
        known 0
  end.

(** "Increment the count of the slot; if a match is found at index [j],
    increment the [j]-th per-value count." *)
Definition classify_spec (a : arginfo) (x : PyObject) : arginfo :=
  let a1 := with_count a (count a + 1) in
  match known_params a with
  | None => a1
  | Some known =>
      match match_index_spec known x with
      | Some j => with_param_counts a1 (alter Z.succ j (param_counts a))
      | None => a1
      end
  end.

Definition stored_name_is (name : PyObject) (a : arginfo) : bool :=
  match kwname a with
  | Some k => bool_decide (k = name)
  | None => false
  end.

Definition stored_name_equals (name : PyObject) (a : arginfo) : bool :=
  match kwname a with
  | Some k => bool_decide (PyObject_RichCompareBool k name Py_EQ = CmpTrue)
  | None => false
  end.

(** "Among the slots of index at least [first]: by identity of the name
    against each stored name; by value equality if that finds none." *)
Definition locate_spec (slots : list arginfo) (first : Z) (name : PyObject)
  : option nat :=
  let start := Z.to_nat first in
  match first_index (stored_name_is name) (drop start slots) start with
  | Some p => Some p
  | None => first_index (stored_name_equals name) (drop start slots) start
  end.

(** The look-up of the keyword name [name] meets a failing comparison: no
    entry from [first] on stores [name] itself and, in the order of the
    array, [PyObject_RichCompareBool] raises [e] on a stored name after it
    has answered [0] on every stored name before. *)
Definition name_comparison_fails (slots : list arginfo) (first : Z)
    (name : PyObject) (e : PyExc) : Prop :=
  let tail := drop (Z.to_nat first) slots in
  first_index (stored_name_is name) tail (Z.to_nat first) = None ∧
  ∃ (before : list arginfo) (a : arginfo) (k : PyObject) (after : list arginfo),
    tail = before ++ a :: after ∧
    Forall (λ b, ∃ kb, kwname b = Some kb ∧
                       PyObject_RichCompareBool kb name Py_EQ = CmpFalse)
      before ∧
    kwname a = Some k ∧
    PyObject_RichCompareBool k name Py_EQ = CmpError e.

(** ** Runs of a wrapper *)

Inductive step : StatsWrapperObject -> StatsWrapperObject -> Prop :=
  | step_delegated self argv len_args kwnames self' res :
      statswrapper_vectorcall self argv len_args kwnames
        = Some (Delegated self' res) ->
      step self self'
  | step_aborted self argv len_args kwnames self' e :
      statswrapper_vectorcall self argv len_args kwnames
        = Some (Aborted self' e) ->
      step self self'
  | step_set_npos self arg self' ret err :
      statswrapper__set_npos self arg = (self', ret, err) ->
      step self self'.

Inductive reachable : StatsWrapperObject -> Prop :=
  | reachable_create argv len_args kwnames self :
      stats_wrapper_create argv len_args kwnames = Some (PyReturn self) ->
      reachable self
  | reachable_step self self' :
      reachable self -> step self self' -> reachable self'.

(** ** A wrapper in use *)

(** What a client does with a wrapper: it calls it or moves the boundary. *)
Inductive request : Type :=
  | Invoke (argv : list PyObject) (len_args : Z)
      (kwnames : option (list PyObject))
  | SetNpos (arg : PyObject).

(** What the client sees: the result of the wrapped callable, the error of
    a call stopped before it, or the answer of [_set_npos]. *)
Inductive event : Type :=
  | Forwarded (res : PyResult PyObject)
  | Stopped (e : PyExc)
  | Reconfigured (ret : option PyObject) (err : option PyExc).

(** The requests served in turn on the same object. *)
Fixpoint serve (self : StatsWrapperObject) (reqs : list request)
  : option (StatsWrapperObject * list event) :=
  match reqs with
  | [] => Some (self, [])
  | Invoke argv len_args kwnames :: rest =>
      out ← statswrapper_vectorcall self argv len_args kwnames;
      match out with
      | Delegated self1 res =>
          '(self', log) ← serve self1 rest; Some (self', Forwarded res :: log)
      | Aborted self1 e =>
          '(self', log) ← serve self1 rest; Some (self', Stopped e :: log)
      end
  | SetNpos arg :: rest =>
      let '(self1, ret, err) := statswrapper__set_npos self arg in
      '(self', log) ← serve self1 rest; Some (self', Reconfigured ret err :: log)
  end.

Definition is_forwarded (ev : event) : bool :=
  match ev with
  | Forwarded _ => true
  | _ => false
  end.

Definition is_failure (ev : event) : bool :=
  match ev with
  | Forwarded (PyRaise _) => true
  | _ => false
  end.

(** The number of events that pass [f]. *)
Fixpoint tally (f : event -> bool) (log : list event) : Z :=
  match log with
  | [] => 0
  | ev :: rest => (if f ev then 1 else 0) + tally f rest
  end.

Definition sum_counts (l : list Z) : Z := foldr Z.add 0 l.

(** The counters of an entry fit together: none is negative and the
    per-value counts do not add up to more than the count. *)
Definition counts_consistent (a : arginfo) : Prop :=
  0 ≤ count a ∧
  Forall (λ c, 0 ≤ c) (param_counts a) ∧
  sum_counts (param_counts a) ≤ count a.

(** A specification the factory accepts: [None] or a tuple. *)
Definition spec_ok (spec : PyObject) : bool :=
  bool_decide (spec = Py_None) || bool_decide (is_Some (PyTuple_Check spec)).

(** The per-value count [handle_arg_stats] increments for [x], if any: the
    index at which its two loops stop. *)
Definition match_index (known : list PyObject) (x : PyObject) : option nat :=
  let n_params := Z.of_nat (length known) in
  let idx := identity_scan known x 0 in
  let found :=
    if idx =? n_params then equality_scan known x 0 else inl idx in
  match found with
  | inl j => if j =? n_params then None else Some (Z.to_nat j)
  | inr _ => None
  end.

(** How many of the values [xs] are counted at index [j]. *)
Fixpoint hits (known : list PyObject) (xs : list PyObject) (j : nat) : Z :=
  match xs with
  | [] => 0
  | x :: rest =>
      (if bool_decide (match_index known x = Some j) then 1 else 0)
      + hits known rest j
  end.

(** ** A callable with a state of its own

    The wrapped callable may answer differently from one call to the next.
    [with_callable call] is the interpreter in which the callable answers
    as [call] does; everything else is as before.  A property that spans
    several calls is stated with one such answer for each call. *)
Definition with_callable
    (call : PyObject -> list PyObject -> Z -> option (list PyObject)
            -> PyResult PyObject)
  : PyRuntime PyObject :=
  {| PyObject_identity := PyObject_identity;
     Py_None := Py_None;
     PyTuple_Check := PyTuple_Check;
     PyUnicode_InternInPlace := PyUnicode_InternInPlace;
     PyObject_RichCompareBool := PyObject_RichCompareBool;
     PyObject_Vectorcall := call;
     PyLong_AsSsize_t := PyLong_AsSsize_t |}.

End StatsWrapper.


(** ** A small interpreter to run the wrapper on

    Strings with an address and a content, integers, values whose
    comparison raises (an array, whose element-wise comparison has no truth
    value; an instance of a subclass of [str] with an [__eq__] of its own),
    tuples of such values, and callables. *)

Inductive value : Set :=
  | VStr (addr : nat) (s : string)
  | VInt (n : Z)
  | VRaising (addr : nat) (e : PyExc).

Inductive object : Set :=
  | OValue (v : value)
  | ONone
  | OTuple (addr : nat) (items : list value)
  | OFunc (addr : nat).

#[global] Instance value_eq_dec : EqDecision value.
Proof. solve_decision. Defined.

#[global] Instance object_eq_dec : EqDecision object.
Proof. solve_decision. Defined.

(** Identical objects are equal; a comparison with a raising value raises
    its exception; strings compare by content. *)
Definition compare_objects (v w : object) (op : Z) : cmp :=
  if negb (op =? Py_EQ) then CmpFalse
  else if decide (v = w) then CmpTrue
  else
    match v, w with
    | OValue (VRaising _ e), _ | _, OValue (VRaising _ e) => CmpError e
    | OValue (VStr _ s), OValue (VStr _ s') =>
        if decide (s = s') then CmpTrue else CmpFalse
    | _, _ => CmpFalse
    end.

(** [OFunc 0] returns its first argument ([None] without one), [OFunc 1]
    raises [ValueError], any other function returns [None]. *)
Definition call_object (f : object) (argv : list object) (len_args : Z)
    (kwnames : option (list object)) : PyResult object :=
  match f with
  | OFunc 0%nat => PyReturn (default ONone (argv !! 0%nat))
  | OFunc 1%nat => PyRaise PyExc_ValueError
  | OFunc _ => PyReturn ONone
  | _ => PyRaise PyExc_TypeError
  end.

Definition as_ssize_t (o : object) : Z + PyExc :=
  match o with
  | OValue (VInt n) =>
      if (PY_SSIZE_T_MIN <=? n) && (n <=? PY_SSIZE_T_MAX) then inl n
      else inr PyExc_OverflowError
  | _ => inr PyExc_TypeError
  end.

#[global] Instance toy_runtime : PyRuntime object := {|
  PyObject_identity := object_eq_dec;
  Py_None := ONone;
  PyTuple_Check := λ o,
    match o with
    | OTuple _ items => Some (OValue <$> items)
    | _ => None
    end;
  PyUnicode_InternInPlace := λ o, o;
  PyObject_RichCompareBool := compare_objects;
  PyObject_Vectorcall := call_object;
  PyLong_AsSsize_t := as_ssize_t;
|}.

Definition str_a : object := OValue (VStr 1 "a").
Definition str_b : object := OValue (VStr 2 "b").
Definition str_x : object := OValue (VStr 4 "x").
Definition str_y : object := OValue (VStr 5 "y").
Definition str_name : object := OValue (VStr 6 "name").

(** The wrapper built by [stats_wrapper(f, ("a", "b"), name=("x", "y"))],
    as [stats_wrapper_create] returns it. *)
Definition demo : StatsWrapperObject :=
  {| ob_size := 3; wrapped := OFunc 0;
     total_calls := 0; invalid_args := 0; error_results := 0;
     npos := 2; npos_only := 1;
     args :=
       [ {| kwname := None; known_params := Some [str_a; str_b];
            count := 0; param_counts := [0; 0] |};
         {| kwname := Some str_name; known_params := Some [str_x; str_y];
            count := 0; param_counts := [0; 0] |};
         terminator ] |}.

(** An array-like argument: comparing it raises [e]. *)
Definition array_raising (e : PyExc) : object := OValue (VRaising 7 e).

(** A keyword name of a subclass of [str]: comparing it raises [e]. *)
Definition name_raising (e : PyExc) : object := OValue (VRaising 8 e).

(** ** Arithmetic of [Py_ssize_t] and of the argument count *)

Lemma ssize_add_Some x y r :
  ssize_add x y = Some r <->
  r = x + y ∧ PY_SSIZE_T_MIN ≤ r ≤ PY_SSIZE_T_MAX.
Proof.
  unfold ssize_add.
  destruct (PY_SSIZE_T_MIN <=? x + y) eqn:Hlo;
    destruct (x + y <=? PY_SSIZE_T_MAX) eqn:Hhi; simpl;
    rewrite ?Z.leb_le, ?Z.leb_gt in *; split; intros H;
    try discriminate; try (injection H as <-; lia); try lia.
  destruct H as [-> _]. reflexivity.
Qed.

Lemma ssize_incr_Some x r :
  ssize_incr x = Some r <-> r = x + 1 ∧ PY_SSIZE_T_MIN ≤ r ≤ PY_SSIZE_T_MAX.
Proof. apply ssize_add_Some. Qed.

Lemma in_range_spec n c :
  in_range n c = true <-> 0 ≤ c ∧ c + n ≤ PY_SSIZE_T_MAX.
Proof. unfold in_range. rewrite andb_true_iff, !Z.leb_le. tauto. Qed.

Lemma ssize_incr_in_range n c :
  0 < n -> in_range n c = true -> ssize_incr c = Some (c + 1).
Proof.
  intros Hn [H0 H1]%in_range_spec. apply ssize_incr_Some.
  unfold PY_SSIZE_T_MIN, PY_SSIZE_T_MAX in *. lia.
Qed.

Lemma PyVectorcall_NARGS_nonneg n : 0 ≤ PyVectorcall_NARGS n.
Proof.
  unfold PyVectorcall_NARGS. apply Z.land_nonneg. left.
  apply Z.mod_pos_bound. lia.
Qed.

Lemma PyVectorcall_NARGS_small n : 0 ≤ n < 2 ^ 63 -> PyVectorcall_NARGS n = n.
Proof.
  intros Hn. unfold PyVectorcall_NARGS.
  rewrite Z.mod_small by lia.
  change (Z.lxor PY_VECTORCALL_ARGUMENTS_OFFSET (Z.ones 64)) with (Z.ones 63).
  rewrite Z.land_ones by lia. apply Z.mod_small. lia.
Qed.

(** ** Boolean checks over lists *)

Lemma forallb_Forall {A} (f : A -> bool) (l : list A) :
  forallb f l = true <-> Forall (λ x, f x = true) l.
Proof.
  induction l as [|x l IH]; simpl.
  - split; [constructor | reflexivity].
  - rewrite andb_true_iff, Forall_cons, IH. reflexivity.
Qed.

Lemma forallb_lookup {A} (f : A -> bool) (l : list A) i x :
  forallb f l = true -> l !! i = Some x -> f x = true.
Proof.
  intros Hf%forallb_Forall Hl.
  exact (Forall_lookup_1 _ _ _ _ Hf Hl).
Qed.

Lemma forallb_elem_of {A} (f : A -> bool) (l : list A) x :
  forallb f l = true -> x ∈ l -> f x = true.
Proof.
  intros Hf [i Hi]%list_elem_of_lookup_1. eapply forallb_lookup; eassumption.
Qed.

Lemma forallb_insert {A} (f : A -> bool) (l : list A) i x :
  forallb f l = true -> f x = true -> forallb f (<[i:=x]> l) = true.
Proof.
  rewrite !forallb_Forall. intros Hl Hx.
  apply Forall_insert; assumption.
Qed.

Lemma forallb_mono {A} (f g : A -> bool) (l : list A) :
  (∀ x, f x = true -> g x = true) ->
  forallb f l = true -> forallb g l = true.
Proof.
  rewrite !forallb_Forall. intros Hfg Hl.
  eapply Forall_impl; [exact Hl | exact Hfg].
Qed.

Lemma forallb_ext {A} (f g : A -> bool) (l : list A) :
  (∀ x, f x = g x) -> forallb f l = forallb g l.
Proof.
  intros Hfg. induction l as [|x l IH]; simpl; [reflexivity|].
  rewrite Hfg, IH. reflexivity.
Qed.

Lemma forallb_Forall_ext {A} (f g : A -> bool) (l : list A) :
  (∀ x, x ∈ l -> f x = g x) -> forallb f l = forallb g l.
Proof.
  induction l as [|x l IH]; intros Hfg; simpl; [reflexivity|].
  rewrite (Hfg x) by apply list_elem_of_here.
  rewrite IH; [reflexivity|]. intros y Hy. apply Hfg.
  by apply list_elem_of_further.
Qed.

Lemma in_range_mono n m c : m ≤ n -> in_range n c = true -> in_range m c = true.
Proof. rewrite !in_range_spec. lia. Qed.

(** Comparisons of integers as booleans, settled by [lia]. *)
Ltac bool_lia :=
  repeat match goal with
         | |- context [?a <=? ?b] => destruct (Z.leb_spec a b)
         | |- context [?a <? ?b] => destruct (Z.ltb_spec a b)
         end;
  simpl; try reflexivity; exfalso; lia.

Ltac bool_lia_eq :=
  match goal with
  | |- _ = (?a =? ?b) => destruct (Z.eqb_spec a b)
  end;
  try reflexivity; exfalso; lia.

(** * Properties *)

Section Theory.

Context {PyObject : Type} `{!PyRuntime PyObject}.

Implicit Types (a : arginfo (PyObject:=PyObject)).
Implicit Types (slots tail : list (arginfo (PyObject:=PyObject))).
Implicit Types (self : StatsWrapperObject (PyObject:=PyObject)).
Implicit Types (x name arg : PyObject) (argv names known vals : list PyObject).

(** ** Entries only grow *)

Lemma grows_refl a : grows a a.
Proof.
  unfold grows. split; [reflexivity|]. split; [lia|].
  induction (param_counts a); constructor; auto; lia.
Qed.

Lemma grows_trans a1 a2 a3 : grows a1 a2 -> grows a2 a3 -> grows a1 a3.
Proof.
  intros (Hs1 & Hc1 & Hp1) (Hs2 & Hc2 & Hp2). unfold grows.
  split; [congruence|]. split; [lia|].
  eapply Forall2_trans; [|exact Hp1|exact Hp2]. intros; simpl in *; lia.
Qed.

#[local] Instance grows_preorder : PreOrder (grows (PyObject:=PyObject)).
Proof. split; [exact grows_refl | exact grows_trans]. Qed.

Lemma grows_insert slots p a a' :
  slots !! p = Some a -> grows a a' ->
  Forall2 grows slots (<[p:=a']> slots).
Proof.
  intros Hp Hg. rewrite <- (list_insert_id slots p a Hp) at 1.
  apply Forall2_insert; [reflexivity | exact Hg].
Qed.

Lemma grows_shapes slots slots' :
  Forall2 grows slots slots' -> shape <$> slots' = shape <$> slots.
Proof.
  induction 1 as [|a a' l l' Hg _ IH]; [reflexivity|].
  rewrite !fmap_cons. destruct Hg as (-> & _). by rewrite IH.
Qed.

Lemma grows_length slots slots' :
  Forall2 grows slots slots' -> length slots' = length slots.
Proof. intros H. symmetry. eapply Forall2_length, H. Qed.

(** ** One classification *)

Lemma equality_scan_critical known x idx e :
  equality_scan known x idx = inr e -> critical e = true.
Proof.
  revert idx. induction known as [|k rest IH]; intros idx; simpl; [discriminate|].
  destruct (PyObject_RichCompareBool k x Py_EQ) as [| |e0]; simpl; eauto.
  - discriminate.
  - destruct (critical e0) eqn:Hc; [|discriminate]. intros [= <-]. exact Hc.
Qed.

Lemma identity_scan_bounds known x idx :
  idx ≤ identity_scan known x idx ≤ idx + Z.of_nat (length known).
Proof.
  revert idx. induction known as [|k rest IH]; intros idx; simpl; [lia|].
  destruct (decide (k = x)); [lia|]. specialize (IH (idx + 1)). lia.
Qed.

Lemma equality_scan_bounds known x idx j :
  equality_scan known x idx = inl j ->
  idx ≤ j ≤ idx + Z.of_nat (length known).
Proof.
  revert idx. induction known as [|k rest IH]; intros idx; simpl.
  - intros [= <-]. lia.
  - destruct (PyObject_RichCompareBool k x Py_EQ) as [| |e0]; simpl.
    + intros H0%IH. lia.
    + intros [= <-]. lia.
    + destruct (critical e0); [discriminate|]. intros [= <-]. lia.
Qed.

(** What a call of [handle_arg_stats] does to its entry, whatever it
    returns. *)
Lemma handle_arg_stats_inv a x a' st :
  handle_arg_stats a x = Some (a', st) ->
  grows a a' ∧ count a' = count a + 1 ∧ count a' ≤ PY_SSIZE_T_MAX ∧
  match st with
  | ERR e =>
      critical e = true ∧ param_counts a' = param_counts a ∧
      ∃ known, known_params a = Some known ∧ fatal_scan known x e
  | OK => True
  end.
Proof.
  unfold handle_arg_stats. intros H0.
  destruct (ssize_incr (count a)) as [c|] eqn:Hc; [|discriminate].
  apply ssize_incr_Some in Hc as [-> Hr]. simpl in H0.
  destruct (known_params a) as [known|] eqn:Hk.
  2:{ inversion H0; subst; clear H0. unfold grows, shape; simpl.
      repeat split; try lia. apply (grows_refl a). }
  cbv zeta in H0.
  destruct (identity_scan known x 0 =? Z.of_nat (length known)) eqn:Hid.
  - apply Z.eqb_eq in Hid.
    destruct (equality_scan known x 0) as [j|e] eqn:Heq.
    + destruct (j =? Z.of_nat (length known)) eqn:Hj.
      { inversion H0; subst; clear H0. unfold grows, shape; simpl.
        repeat split; try lia. apply (grows_refl a). }
      destruct (param_counts a !! Z.to_nat j) as [pc|] eqn:Hpc;
        [|discriminate]. simpl in H0.
      destruct (ssize_incr pc) as [pc'|] eqn:Hpc'; [|discriminate].
      apply ssize_incr_Some in Hpc' as [-> _]. simpl in H0.
      inversion H0; subst; clear H0. unfold grows, shape; simpl.
      rewrite length_insert. repeat split; try lia.
      rewrite <- (list_insert_id _ _ _ Hpc) at 1.
      apply Forall2_insert; [apply (grows_refl a) | lia].
    + inversion H0; subst; clear H0. unfold grows, shape; simpl.
      repeat split; try lia; try apply (grows_refl a).
      * eapply equality_scan_critical, Heq.
      * exists known. split; [reflexivity|]. split; assumption.
  - simpl in H0. rewrite Hid in H0.
    destruct (param_counts a !! Z.to_nat (identity_scan known x 0)) as [pc|] eqn:Hpc;
      [|discriminate]. simpl in H0.
    destruct (ssize_incr pc) as [pc'|] eqn:Hpc'; [|discriminate].
    apply ssize_incr_Some in Hpc' as [-> _]. simpl in H0.
    inversion H0; subst; clear H0. unfold grows, shape; simpl.
    rewrite length_insert. repeat split; try lia.
    rewrite <- (list_insert_id _ _ _ Hpc) at 1.
    apply Forall2_insert; [apply (grows_refl a) | lia].
Qed.

Lemma handle_arg_stats_grows a x a' st :
  handle_arg_stats a x = Some (a', st) -> grows a a'.
Proof. intros H0. apply handle_arg_stats_inv in H0. tauto. Qed.


(** ** The two loops *)

Lemma positional_loop_grows n i slots argv slots' st :
  positional_loop n i slots argv = Some (slots', st) ->
  Forall2 grows slots slots'.
Proof.
  revert i slots. induction n as [|n IH]; intros i slots; simpl.
  - intros [= <- <-]. reflexivity.
  - destruct (slots !! Z.to_nat i) as [a|] eqn:Ha; [|discriminate]. simpl.
    destruct (argv !! Z.to_nat i) as [x|]; [|discriminate]. simpl.
    destruct (handle_arg_stats a x) as [[a' st']|] eqn:Hh; [|discriminate].
    simpl. apply handle_arg_stats_grows in Hh.
    pose proof (grows_insert _ _ _ _ Ha Hh) as Hg.
    destruct st'.
    + intros H0%IH. etransitivity; eassumption.
    + intros [= <- <-]. exact Hg.
Qed.

Lemma keyword_loop_grows names i nargs first slots argv invalid slots' invalid' st :
  keyword_loop names i nargs first slots argv invalid
    = Some (slots', invalid', st) ->
  Forall2 grows slots slots' ∧ (invalid' = invalid ∨ invalid' = 1).
Proof.
  revert i slots invalid.
  induction names as [|name rest IH]; intros i slots invalid; simpl.
  - intros [= <- <- <-]. split; [reflexivity | auto].
  - destruct (if nargs + i <? 0 then None else argv !! Z.to_nat (nargs + i))
      as [arg|]; [|discriminate]. simpl.
    destruct (find_arginfo slots first name) as [[p|e]|]; [| |discriminate];
      simpl.
    2:{ intros [= <- <- <-]. split; [reflexivity | auto]. }
    destruct (slots !! p) as [a|] eqn:Ha; [|discriminate]. simpl.
    destruct (kwname a).
    + destruct (handle_arg_stats a arg) as [[a' st']|] eqn:Hh; [|discriminate].
      simpl. apply handle_arg_stats_grows in Hh.
      pose proof (grows_insert _ _ _ _ Ha Hh) as Hg.
      destruct st'.
      * intros [H1 H2]%IH. split; [etransitivity; eassumption | exact H2].
      * intros [= <- <- <-]. split; [exact Hg | auto].
    + intros [H1 H2]%IH. split; [exact H1|]. destruct H2; auto.
Qed.

(** ** The call *)

(** The shape of every result of [statswrapper_vectorcall]. *)
Lemma statswrapper_vectorcall_inv self argv len_args kwnames out :
  statswrapper_vectorcall self argv len_args kwnames = Some out ->
  match out with
  | Aborted self' e =>
      total_calls self' = total_calls self ∧
      error_results self' = error_results self ∧
      invalid_args self' = invalid_args self
  | Delegated self' res =>
      res = PyObject_Vectorcall (wrapped self) argv len_args kwnames ∧
      total_calls self' = total_calls self + 1 ∧
      error_results self' =
        error_results self + (match res with PyRaise _ => 1 | PyReturn _ => 0 end) ∧
      (invalid_args self' = invalid_args self ∨
       invalid_args self' = invalid_args self + 1) ∧
      (npos self < PyVectorcall_NARGS len_args ->
       invalid_args self' = invalid_args self + 1)
  end ∧
  (let self' := match out with Aborted s _ | Delegated s _ => s end in
   Forall2 grows (args self) (args self') ∧
   wrapped self' = wrapped self ∧ npos self' = npos self ∧
   npos_only self' = npos_only self ∧ ob_size self' = ob_size self).
Proof.
  unfold statswrapper_vectorcall. intros H0.
  set (nargs := PyVectorcall_NARGS len_args) in *.
  destruct (npos self <? nargs) eqn:Hn.
  - destruct (positional_loop _ 0 (args self) argv) as [[slots1 st1]|] eqn:Hp;
      [|discriminate]. simpl in H0.
    pose proof (positional_loop_grows _ _ _ _ _ _ Hp) as Hg1.
    destruct st1.
    2:{ injection H0 as <-. simpl. tauto. }
    destruct (keyword_loop _ 0 nargs _ slots1 argv 1)
      as [[[slots2 inv2] st2]|] eqn:Hk; [|discriminate]. simpl in H0.
    apply keyword_loop_grows in Hk as [Hg2 Hinv].
    assert (Hg : Forall2 grows (args self) slots2)
      by (etransitivity; eassumption).
    destruct st2.
    2:{ injection H0 as <-. simpl. tauto. }
    assert (inv2 = 1) as -> by (destruct Hinv; assumption).
    destruct (ssize_incr (total_calls self)) as [tc|] eqn:Htc; [|discriminate].
    apply ssize_incr_Some in Htc as [-> _]. simpl in H0.
    destruct (ssize_add (invalid_args self) 1) as [ia|] eqn:Hia; [|discriminate].
    apply ssize_add_Some in Hia as [-> _]. simpl in H0.
    destruct (PyObject_Vectorcall (wrapped self) argv len_args kwnames) eqn:Hres.
    + simpl in H0. injection H0 as <-. simpl.
      repeat split; auto; lia.
    + destruct (ssize_incr (error_results self)) as [er|] eqn:Her; [|discriminate].
      apply ssize_incr_Some in Her as [-> _]. simpl in H0.
      injection H0 as <-. simpl. repeat split; auto; lia.
  - apply Z.ltb_ge in Hn.
    destruct (positional_loop _ 0 (args self) argv) as [[slots1 st1]|] eqn:Hp;
      [|discriminate]. simpl in H0.
    pose proof (positional_loop_grows _ _ _ _ _ _ Hp) as Hg1.
    destruct st1.
    2:{ injection H0 as <-. simpl. tauto. }
    destruct (keyword_loop _ 0 nargs _ slots1 argv 0)
      as [[[slots2 inv2] st2]|] eqn:Hk; [|discriminate]. simpl in H0.
    apply keyword_loop_grows in Hk as [Hg2 Hinv].
    assert (Hg : Forall2 grows (args self) slots2)
      by (etransitivity; eassumption).
    destruct st2.
    2:{ injection H0 as <-. simpl. tauto. }
    destruct (ssize_incr (total_calls self)) as [tc|] eqn:Htc; [|discriminate].
    apply ssize_incr_Some in Htc as [-> _]. simpl in H0.
    destruct (ssize_add (invalid_args self) inv2) as [ia|] eqn:Hia; [|discriminate].
    apply ssize_add_Some in Hia as [-> _]. simpl in H0.
    destruct (PyObject_Vectorcall (wrapped self) argv len_args kwnames) eqn:Hres.
    + simpl in H0. injection H0 as <-. simpl.
      repeat split; auto; lia.
    + destruct (ssize_incr (error_results self)) as [er|] eqn:Her; [|discriminate].
      apply ssize_incr_Some in Her as [-> _]. simpl in H0.
      injection H0 as <-. simpl. repeat split; auto; lia.
Qed.

(** ** Checks that depend on the shape of the entries only *)

Lemma forallb_grows (f : arginfo -> bool) slots slots' :
  (∀ a a', shape a' = shape a -> f a' = f a) ->
  Forall2 grows slots slots' -> forallb f slots' = forallb f slots.
Proof.
  intros Hf. induction 1 as [|a a' l l' [Hs _] _ IH]; [reflexivity|].
  simpl. rewrite (Hf _ _ Hs), IH. reflexivity.
Qed.

Lemma arginfo_ok_shape a a' : shape a' = shape a -> arginfo_ok a' = arginfo_ok a.
Proof. unfold shape, arginfo_ok. intros [= _ -> ->]. reflexivity. Qed.

Lemma terminated_grows slots slots' :
  Forall2 grows slots slots' -> terminated slots' = terminated slots.
Proof.
  intros Hg. unfold terminated.
  assert (Hl : option_Forall2 grows (last slots) (last slots')).
  { rewrite !last_lookup. rewrite (grows_length _ _ Hg).
    apply Forall2_lookup. exact Hg. }
  destruct (last slots) as [a|], (last slots') as [a'|];
    inversion Hl as [? ? [Hs _]|]; subst; [|reflexivity].
  unfold shape in Hs. injection Hs as Hs _ _. unfold named. by rewrite Hs.
Qed.

Lemma values_benign_grows slots slots' argv :
  Forall2 grows slots slots' ->
  values_benign slots' argv = values_benign slots argv.
Proof.
  apply forallb_grows. intros a a'. unfold shape. intros [= _ -> _]. reflexivity.
Qed.

Lemma names_benign_grows slots slots' names :
  Forall2 grows slots slots' ->
  names_benign slots' names = names_benign slots names.
Proof.
  apply forallb_grows. intros a a'. unfold shape. intros [= -> _ _]. reflexivity.
Qed.

Lemma identity_walk_grows tail tail' name p :
  Forall2 grows tail tail' ->
  identity_walk tail' name p = identity_walk tail name p.
Proof.
  intros Hg. revert p. induction Hg as [|a a' l l' [Hs _] _ IH]; intros p;
    [reflexivity|].
  simpl. unfold shape in Hs. injection Hs as -> _ _.
  destruct (kwname a); [|reflexivity]. rewrite IH. reflexivity.
Qed.

Lemma equality_walk_grows tail tail' name p :
  Forall2 grows tail tail' ->
  equality_walk tail' name p = equality_walk tail name p.
Proof.
  intros Hg. revert p. induction Hg as [|a a' l l' [Hs _] _ IH]; intros p;
    [reflexivity|].
  simpl. unfold shape in Hs. injection Hs as -> _ _.
  destruct (kwname a); [|reflexivity]. rewrite IH. reflexivity.
Qed.

Lemma kwname_grows slots slots' p :
  Forall2 grows slots slots' ->
  (kwname <$> slots' !! p) = (kwname <$> slots !! p).
Proof.
  intros Hg. apply Forall2_lookup with (i := p) in Hg.
  destruct (slots !! p) as [a|], (slots' !! p) as [a'|];
    inversion Hg as [? ? [Hs _]|]; subst; [|reflexivity].
  unfold shape in Hs. injection Hs as Hs _ _. simpl. by rewrite Hs.
Qed.

Lemma find_arginfo_grows slots slots' first name :
  Forall2 grows slots slots' ->
  find_arginfo slots' first name = find_arginfo slots first name.
Proof.
  intros Hg. unfold find_arginfo. destruct (first <? 0); [reflexivity|].
  assert (Hd : Forall2 grows (drop (Z.to_nat first) slots)
                              (drop (Z.to_nat first) slots'))
    by (apply Forall2_drop; exact Hg).
  rewrite (identity_walk_grows _ _ _ _ Hd), (equality_walk_grows _ _ _ _ Hd).
  destruct (identity_walk _ name _) as [p|]; [|reflexivity]. simpl.
  pose proof (kwname_grows _ _ p Hg) as Hk.
  destruct (slots' !! p) as [a'|], (slots !! p) as [a|]; simpl in *;
    try discriminate; [|reflexivity].
  injection Hk as ->. reflexivity.
Qed.

Lemma tracked_at_grows slots slots' first name :
  Forall2 grows slots slots' ->
  tracked_at slots' first name = tracked_at slots first name.
Proof.
  intros Hg. unfold tracked_at. rewrite (find_arginfo_grows _ _ _ _ Hg).
  destruct (find_arginfo slots first name) as [[p|]|]; try reflexivity.
  pose proof (kwname_grows _ _ p Hg) as Hk.
  destruct (slots' !! p) as [a'|], (slots !! p) as [a|]; simpl in *;
    try discriminate; [|reflexivity].
  injection Hk as ->. reflexivity.
Qed.

(** ** The walks stay inside a terminated array *)

Lemma terminated_cons a tail :
  terminated (a :: tail) = true -> is_Some (kwname a) -> terminated tail = true.
Proof.
  unfold terminated, named. destruct tail as [|b tail]; simpl.
  - intros Ht Hs. rewrite bool_decide_eq_true_2 in Ht by exact Hs. discriminate.
  - auto.
Qed.

Lemma terminated_drop slots n :
  terminated slots = true -> (n < length slots)%nat ->
  terminated (drop n slots) = true.
Proof.
  unfold terminated. intros Ht Hn.
  rewrite last_lookup, length_drop, lookup_drop.
  rewrite last_lookup in Ht.
  replace (n + Init.Nat.pred (length slots - n))%nat
    with (Init.Nat.pred (length slots)) by lia.
  exact Ht.
Qed.

Lemma keyword_run_terminated tail :
  keyword_run tail = true -> terminated tail = true.
Proof.
  induction tail as [|a [|b rest] IH]; simpl; [discriminate|auto|].
  intros [_ Hr]%andb_true_iff. exact (IH Hr).
Qed.

Lemma terminated_of_drop slots n :
  terminated (drop n slots) = true ->
  terminated slots = true ∧ (n < length slots)%nat.
Proof.
  unfold terminated. rewrite !last_lookup, length_drop, lookup_drop.
  intros Ht.
  destruct (decide (n < length slots)%nat) as [Hn|Hn].
  - split; [|exact Hn].
    replace (n + Init.Nat.pred (length slots - n))%nat
      with (Init.Nat.pred (length slots)) in Ht by lia.
    exact Ht.
  - rewrite lookup_ge_None_2 in Ht by lia. discriminate.
Qed.

Lemma identity_walk_defined tail name p :
  terminated tail = true ->
  ∃ q, identity_walk tail name p = Some q ∧ (p ≤ q < p + length tail)%nat.
Proof.
  revert p. induction tail as [|a tail IH]; intros p Ht; [discriminate|].
  simpl. destruct (kwname a) as [k|] eqn:Hk.
  - destruct (decide (k = name)).
    + exists p. split; [reflexivity | lia].
    + destruct (IH (S p)) as (q & Hq & Hr).
      { eapply terminated_cons; [exact Ht | rewrite Hk; eauto]. }
      exists q. split; [exact Hq | lia].
  - exists p. split; [reflexivity | lia].
Qed.

Lemma equality_walk_defined tail name p :
  terminated tail = true ->
  ∃ r, equality_walk tail name p = Some r ∧
       match r with
       | inl q => (p ≤ q < p + length tail)%nat
       | inr e =>
           ∃ a k, a ∈ tail ∧ kwname a = Some k ∧
                  PyObject_RichCompareBool k name Py_EQ = CmpError e
       end.
Proof.
  revert p. induction tail as [|a tail IH]; intros p Ht; [discriminate|].
  simpl. destruct (kwname a) as [k|] eqn:Hk.
  - destruct (PyObject_RichCompareBool k name Py_EQ) as [| |e] eqn:Hc; simpl.
    + destruct (IH (S p)) as (r & Hr & Hb).
      { eapply terminated_cons; [exact Ht | rewrite Hk; eauto]. }
      exists r. split; [exact Hr|]. destruct r as [q|e].
      * lia.
      * destruct Hb as (a0 & k0 & Hin & Hk0 & Hc0).
        exists a0, k0. split; [by apply list_elem_of_further | auto].
    + exists (inl p). split; [reflexivity | lia].
    + exists (inr e). split; [reflexivity|].
      exists a, k. split; [apply list_elem_of_here | auto].
  - exists (inl p). split; [reflexivity | lia].
Qed.

(** [find_arginfo] is defined on a terminated array, answers an index
    inside it, and fails only with the error of a name comparison. *)
Lemma find_arginfo_defined slots first name :
  terminated slots = true -> 0 ≤ first < Z.of_nat (length slots) ->
  ∃ r, find_arginfo slots first name = Some r ∧
       match r with
       | inl p => (Z.to_nat first ≤ p < length slots)%nat
       | inr e =>
           ∃ a k, a ∈ slots ∧ kwname a = Some k ∧
                  PyObject_RichCompareBool k name Py_EQ = CmpError e
       end.
Proof.
  intros Ht Hf. unfold find_arginfo.
  destruct (first <? 0) eqn:Hneg; [apply Z.ltb_lt in Hneg; lia|].
  set (start := Z.to_nat first).
  assert (Hs : (start < length slots)%nat) by (unfold start; lia).
  pose proof (terminated_drop _ _ Ht Hs) as Htd.
  destruct (identity_walk_defined _ name start Htd) as (q & Hq & Hr).
  rewrite Hq. simpl. rewrite length_drop in Hr.
  destruct (slots !! q) as [a|] eqn:Ha.
  2:{ apply lookup_ge_None in Ha. lia. }
  simpl. destruct (kwname a).
  - exists (inl q). split; [reflexivity | lia].
  - destruct (equality_walk_defined _ name start Htd) as (r & Hr' & Hb).
    exists r. split; [exact Hr'|]. destruct r as [q'|e].
    + rewrite length_drop in Hb. lia.
    + destruct Hb as (a0 & k0 & Hin & Hk0 & Hc0).
      exists a0, k0. split; [|auto].
      apply list_elem_of_lookup_1 in Hin as [i Hi].
      rewrite lookup_drop in Hi. eapply list_elem_of_lookup_2, Hi.
Qed.

Lemma names_benign_find slots first names name r :
  names_benign slots names = true -> name ∈ names ->
  terminated slots = true -> 0 ≤ first < Z.of_nat (length slots) ->
  find_arginfo slots first name = Some r ->
  ∃ p, r = inl p ∧ (Z.to_nat first ≤ p < length slots)%nat.
Proof.
  intros Hb Hin Ht Hf Hr.
  destruct (find_arginfo_defined slots first name Ht Hf) as (r' & Hr' & Hm).
  rewrite Hr in Hr'. injection Hr' as <-.
  destruct r as [p|e]; [eauto|].
  destruct Hm as (a & k & Ha & Hk & Hc).
  pose proof (forallb_elem_of _ _ _ Hb Ha) as H1. simpl in H1.
  rewrite Hk in H1.
  pose proof (forallb_elem_of _ _ _ H1 Hin) as H2. simpl in H2.
  rewrite Hc in H2. discriminate.
Qed.

(** ** One classification is defined *)

Lemma equality_scan_fatal_witness known x idx e :
  equality_scan known x idx = inr e ->
  ∃ k, k ∈ known ∧ PyObject_RichCompareBool k x Py_EQ = CmpError e ∧
       critical e = true.
Proof.
  revert idx. induction known as [|k rest IH]; intros idx; simpl; [discriminate|].
  destruct (PyObject_RichCompareBool k x Py_EQ) as [| |e0] eqn:Hc; simpl.
  - intros (k' & Hin & H1)%IH. exists k'. split; [by apply list_elem_of_further | auto].
  - discriminate.
  - destruct (critical e0) eqn:Hcr; [|discriminate]. intros [= <-].
    exists k. split; [apply list_elem_of_here | auto].
Qed.

Lemma values_benign_no_fatal slots argv a known x e :
  values_benign slots argv = true -> a ∈ slots -> x ∈ argv ->
  known_params a = Some known -> fatal_scan known x e -> False.
Proof.
  intros Hb Ha Hx Hk [_ Hs].
  apply equality_scan_fatal_witness in Hs as (k & Hin & Hc & Hcr).
  pose proof (forallb_elem_of _ _ _ Hb Ha) as H1. simpl in H1. rewrite Hk in H1.
  pose proof (forallb_elem_of _ _ _ H1 Hx) as H2. simpl in H2.
  pose proof (forallb_elem_of _ _ _ H2 Hin) as H3. simpl in H3.
  rewrite Hc in H3. simpl in H3. rewrite Hcr in H3. discriminate.
Qed.

Lemma room_mono n m a : m ≤ n -> room n a = true -> room m a = true.
Proof.
  unfold room. rewrite !andb_true_iff. intros Hm [H1 H2]. split.
  - eapply in_range_mono; eassumption.
  - eapply forallb_mono; [|exact H2]. intros c. apply in_range_mono, Hm.
Qed.

Lemma handle_arg_stats_defined a x n :
  0 < n -> arginfo_ok a = true -> room n a = true ->
  ∃ a' st, handle_arg_stats a x = Some (a', st) ∧ room (n - 1) a' = true.
Proof.
  intros Hn Hok Hroom. unfold room in Hroom.
  apply andb_true_iff in Hroom as [Hc Hpc].
  unfold handle_arg_stats. rewrite (ssize_incr_in_range n _ Hn Hc). simpl.
  assert (Hc' : in_range (n - 1) (count a + 1) = true).
  { apply in_range_spec in Hc. apply in_range_spec. lia. }
  assert (Hpc' : forallb (in_range (n - 1)) (param_counts a) = true).
  { eapply forallb_mono; [|exact Hpc]. intros c. apply in_range_mono. lia. }
  assert (Hbase : room (n - 1) (with_count a (count a + 1)) = true).
  { unfold room. simpl. rewrite Hc', Hpc'. reflexivity. }
  assert (Hupd : ∀ j, 0 ≤ j -> j ≠ Z.of_nat (length (param_counts a)) ->
            j ≤ Z.of_nat (length (param_counts a)) ->
            ∃ a' st,
              (pc ← param_counts a !! Z.to_nat j;
               pc' ← ssize_incr pc;
               Some (with_param_counts (with_count a (count a + 1))
                       (<[Z.to_nat j := pc']> (param_counts a)), OK))
              = Some (a', st) ∧ room (n - 1) a' = true).
  { intros j Hj0 Hj1 Hj2.
    destruct (param_counts a !! Z.to_nat j) as [pc|] eqn:Hl.
    2:{ apply lookup_ge_None in Hl. lia. }
    simpl. pose proof (forallb_lookup _ _ _ _ Hpc Hl) as Hr.
    rewrite (ssize_incr_in_range n _ Hn Hr). simpl.
    eexists _, _. split; [reflexivity|]. unfold room. simpl. rewrite Hc'. simpl.
    apply forallb_insert; [exact Hpc'|].
    apply in_range_spec in Hr. apply in_range_spec. lia. }
  unfold arginfo_ok in Hok.
  destruct (known_params a) as [known|] eqn:Hk;
    [|eexists _, _; split; [reflexivity | exact Hbase]].
  apply Nat.eqb_eq in Hok. simpl.
  pose proof (identity_scan_bounds known x 0) as Hib.
  destruct (identity_scan known x 0 =? Z.of_nat (length known)) eqn:Hid.
  - destruct (equality_scan known x 0) as [j|e] eqn:Heq;
      [|eexists _, _; split; [reflexivity | exact Hbase]].
    pose proof (equality_scan_bounds _ _ _ _ Heq) as Hjb.
    destruct (j =? Z.of_nat (length known)) eqn:Hj;
      [eexists _, _; split; [reflexivity | exact Hbase]|].
    apply Z.eqb_neq in Hj. apply Hupd; lia.
  - rewrite Hid. apply Z.eqb_neq in Hid. apply Hupd; lia.
Qed.

(** ** The loops are defined on a well-formed wrapper *)

Lemma insert_keeps_checks slots p a a' m :
  slots !! p = Some a -> grows a a' -> room (m - 1) a' = true ->
  forallb arginfo_ok slots = true -> forallb (room m) slots = true ->
  forallb arginfo_ok (<[p:=a']> slots) = true ∧
  forallb (room (m - 1)) (<[p:=a']> slots) = true.
Proof.
  intros Hp Hg Hr Hok Hroom. split.
  - apply forallb_insert; [exact Hok|].
    rewrite (arginfo_ok_shape a a') by apply Hg.
    eapply forallb_lookup; eassumption.
  - apply forallb_insert; [|exact Hr].
    eapply forallb_mono; [|exact Hroom]. intros b. apply room_mono. lia.
Qed.

Lemma positional_loop_defined n argv : ∀ i slots m,
  0 ≤ i ->
  (Z.to_nat i + n ≤ length slots)%nat ->
  (Z.to_nat i + n ≤ length argv)%nat ->
  forallb arginfo_ok slots = true ->
  Z.of_nat n ≤ m ->
  forallb (room m) slots = true ->
  ∃ slots' st,
    positional_loop n i slots argv = Some (slots', st) ∧
    forallb (room (m - Z.of_nat n)) slots' = true ∧
    (values_benign slots argv = true -> st = OK).
Proof.
  induction n as [|n IH]; intros i slots m Hi Hls Hla Hok Hm Hroom.
  - exists slots, OK. simpl. split; [reflexivity|]. split; [|auto].
    replace (m - Z.of_nat 0) with m by lia. exact Hroom.
  - simpl.
    destruct (slots !! Z.to_nat i) as [a|] eqn:Ha.
    2:{ apply lookup_ge_None in Ha. lia. }
    destruct (argv !! Z.to_nat i) as [x|] eqn:Hx.
    2:{ apply lookup_ge_None in Hx. lia. }
    simpl.
    destruct (handle_arg_stats_defined a x m) as (a' & st & Hh & Hr).
    { lia. }
    { eapply forallb_lookup; eassumption. }
    { eapply forallb_lookup; eassumption. }
    rewrite Hh. simpl.
    pose proof (handle_arg_stats_inv _ _ _ _ Hh) as (Hg & _ & _ & Hst).
    destruct (insert_keeps_checks _ _ _ _ m Ha Hg Hr Hok Hroom) as [Hok1 Hroom1].
    destruct st as [|e].
    + destruct (IH (i + 1) (<[Z.to_nat i:=a']> slots) (m - 1)) as (slots' & st & Hl & Hr' & Hb).
      { lia. }
      { rewrite length_insert. lia. }
      { lia. }
      { exact Hok1. }
      { lia. }
      { exact Hroom1. }
      exists slots', st. split; [exact Hl|]. split.
      * replace (m - Z.of_nat (S n)) with (m - 1 - Z.of_nat n) by lia. exact Hr'.
      * intros Hvb. apply Hb.
        rewrite (values_benign_grows slots) by (eapply grows_insert; eassumption).
        exact Hvb.
    + exists (<[Z.to_nat i:=a']> slots), (ERR e). split; [reflexivity|]. split.
      * eapply forallb_mono; [|exact Hroom1]. intros b. apply room_mono. lia.
      * intros Hvb. exfalso. destruct Hst as (_ & _ & known & Hk & Hf).
        eapply values_benign_no_fatal; [exact Hvb| | |exact Hk|exact Hf].
        -- eapply list_elem_of_lookup_2, Ha.
        -- eapply list_elem_of_lookup_2, Hx.
Qed.

Lemma names_benign_tail slots name names :
  names_benign slots (name :: names) = true -> names_benign slots names = true.
Proof.
  unfold names_benign. apply forallb_mono. intros a.
  destruct (kwname a); [|auto]. simpl. intros [_ H0]%andb_true_iff. exact H0.
Qed.

Lemma keyword_loop_defined names argv nargs first : ∀ i slots invalid m,
  0 ≤ nargs + i ->
  nargs + i + Z.of_nat (length names) ≤ Z.of_nat (length argv) ->
  0 ≤ first < Z.of_nat (length slots) ->
  terminated slots = true ->
  forallb arginfo_ok slots = true ->
  Z.of_nat (length names) ≤ m ->
  forallb (room m) slots = true ->
  ∃ slots' invalid' st,
    keyword_loop names i nargs first slots argv invalid
      = Some (slots', invalid', st) ∧
    (values_benign slots argv = true -> names_benign slots names = true ->
     st = OK).
Proof.
  induction names as [|name rest IH];
    intros i slots invalid m Hi Hla Hf Ht Hok Hm Hroom.
  - exists slots, invalid, OK. split; [reflexivity | auto].
  - simpl in Hla, Hm. simpl.
    destruct (nargs + i <? 0) eqn:Hneg; [apply Z.ltb_lt in Hneg; lia|].
    destruct (argv !! Z.to_nat (nargs + i)) as [arg|] eqn:Harg.
    2:{ apply lookup_ge_None in Harg. lia. }
    simpl.
    destruct (find_arginfo_defined slots first name Ht Hf) as (r & Hr & Hrb).
    rewrite Hr. simpl.
    destruct r as [p|e].
    2:{ exists slots, invalid, (ERR e). split; [reflexivity|].
        intros _ Hnb.
        destruct (names_benign_find slots first (name :: rest) name (inr e))
          as (p & Hp & _); auto; [apply list_elem_of_here | discriminate]. }
    destruct (slots !! p) as [a|] eqn:Ha.
    2:{ apply lookup_ge_None in Ha. lia. }
    simpl. destruct (kwname a) as [k|] eqn:Hk.
    + destruct (handle_arg_stats_defined a arg m) as (a' & st & Hh & Hra).
      { lia. }
      { eapply forallb_lookup; eassumption. }
      { eapply forallb_lookup; eassumption. }
      rewrite Hh. simpl.
      pose proof (handle_arg_stats_inv _ _ _ _ Hh) as (Hg & _ & _ & Hst).
      destruct (insert_keeps_checks _ _ _ _ m Ha Hg Hra Hok Hroom)
        as [Hok1 Hroom1].
      pose proof (grows_insert _ _ _ _ Ha Hg) as Hgs.
      destruct st as [|e].
      * destruct (IH (i + 1) (<[p:=a']> slots) invalid (m - 1))
          as (slots' & invalid' & st & Hl & Hb).
        { lia. }
        { lia. }
        { rewrite length_insert. lia. }
        { rewrite (terminated_grows _ _ Hgs). exact Ht. }
        { exact Hok1. }
        { lia. }
        { exact Hroom1. }
        exists slots', invalid', st. split; [exact Hl|].
        intros Hvb Hnb. apply Hb.
        -- rewrite (values_benign_grows _ _ _ Hgs). exact Hvb.
        -- rewrite (names_benign_grows _ _ _ Hgs).
           eapply names_benign_tail, Hnb.
      * exists (<[p:=a']> slots), invalid, (ERR e). split; [reflexivity|].
        intros Hvb _. exfalso. destruct Hst as (_ & _ & known & Hkn & Hfs).
        eapply values_benign_no_fatal; [exact Hvb| | |exact Hkn|exact Hfs].
        -- eapply list_elem_of_lookup_2, Ha.
        -- eapply list_elem_of_lookup_2, Harg.
    + destruct (IH (i + 1) slots 1 m) as (slots' & invalid' & st & Hl & Hb);
        try assumption; try lia.
      exists slots', invalid', st. split; [exact Hl|].
      intros Hvb Hnb. apply Hb; [exact Hvb|]. eapply names_benign_tail, Hnb.
Qed.

(** ** The call is defined, and completes unless a comparison stops it *)

Lemma well_formed_inv self :
  well_formed self = true ->
  ob_size self = Z.of_nat (length (args self)) ∧
  0 ≤ npos_only self ∧ npos_only self ≤ npos self ∧
  npos self ≤ ob_size self - 1 ∧
  forallb arginfo_ok (args self) = true ∧
  terminated (args self) = true ∧
  keyword_run (drop (Z.to_nat (npos_only self)) (args self)) = true.
Proof.
  unfold well_formed. rewrite !andb_true_iff, Z.eqb_eq, !Z.leb_le.
  intros (((((H1 & H2) & H3) & H4) & H5) & H6).
  repeat split; try assumption.
  eapply terminated_of_drop, keyword_run_terminated, H6.
Qed.

Lemma headroom_inv self n :
  headroom self n = true ->
  in_range 1 (total_calls self) = true ∧
  in_range 1 (invalid_args self) = true ∧
  in_range 1 (error_results self) = true ∧
  forallb (room n) (args self) = true.
Proof. unfold headroom. rewrite !andb_true_iff. tauto. Qed.

Lemma statswrapper_vectorcall_defined self argv len_args kwnames :
  well_formed self = true ->
  call_ok argv len_args kwnames = true ->
  headroom self (Z.of_nat (length argv)) = true ->
  ∃ out,
    statswrapper_vectorcall self argv len_args kwnames = Some out ∧
    (values_benign (args self) argv = true ->
     names_benign (args self) (default [] kwnames) = true ->
     ∃ self',
       out = Delegated self'
               (PyObject_Vectorcall (wrapped self) argv len_args kwnames)).
Proof.
  intros (Hsz & Hno & Hnp & Hnpm & Hok & Ht & _)%well_formed_inv Hcall
         (Htc & Hia & Her & Hroom)%headroom_inv.
  unfold call_ok in Hcall. apply Z.eqb_eq in Hcall.
  pose proof (PyVectorcall_NARGS_nonneg len_args) as Hnn.
  unfold statswrapper_vectorcall.
  set (nargs := PyVectorcall_NARGS len_args) in *.
  set (names := default [] kwnames) in *.
  set (flag := if npos self <? nargs then (1, npos self) else (0, nargs)).
  assert (Hflag : ∃ invalid nv, flag = (invalid, nv) ∧
             (invalid = 0 ∨ invalid = 1) ∧ 0 ≤ nv ≤ nargs ∧ nv ≤ npos self).
  { unfold flag. destruct (npos self <? nargs) eqn:Hlt.
    - apply Z.ltb_lt in Hlt. exists 1, (npos self). repeat split; auto; lia.
    - apply Z.ltb_ge in Hlt. exists 0, nargs. repeat split; auto; lia. }
  destruct Hflag as (invalid & nv & -> & Hinv & Hnv & Hnv').
  destruct (positional_loop_defined (Z.to_nat nv) argv 0 (args self)
              (Z.of_nat (length argv)))
    as (slots1 & st1 & Hp & Hroom1 & Hb1); try assumption; try lia.
  rewrite Hp. simpl.
  pose proof (positional_loop_grows _ _ _ _ _ _ Hp) as Hg1.
  destruct st1 as [|e].
  2:{ eexists. split; [reflexivity|]. intros Hvb _.
      specialize (Hb1 Hvb). discriminate. }
  destruct (keyword_loop_defined names argv nargs (npos_only self) 0 slots1
              invalid (Z.of_nat (length argv) - Z.of_nat (Z.to_nat nv)))
    as (slots2 & inv2 & st2 & Hk & Hb2); try lia.
  { rewrite (grows_length _ _ Hg1). lia. }
  { rewrite (terminated_grows _ _ Hg1). exact Ht. }
  { rewrite (forallb_grows arginfo_ok _ _ arginfo_ok_shape Hg1). exact Hok. }
  { exact Hroom1. }
  rewrite Hk. simpl.
  pose proof (keyword_loop_grows _ _ _ _ _ _ _ _ _ _ Hk) as [Hg2 Hinv2].
  destruct st2 as [|e].
  2:{ eexists. split; [reflexivity|]. intros Hvb Hnb.
      rewrite <- (values_benign_grows _ _ _ Hg1) in Hvb.
      rewrite <- (names_benign_grows _ _ _ Hg1) in Hnb.
      specialize (Hb2 Hvb Hnb). discriminate. }
  rewrite (ssize_incr_in_range 1 _ ltac:(lia) Htc). simpl.
  assert (Hadd : ssize_add (invalid_args self) inv2
                 = Some (invalid_args self + inv2)).
  { apply ssize_add_Some. apply in_range_spec in Hia.
    unfold PY_SSIZE_T_MIN, PY_SSIZE_T_MAX in *. lia. }
  rewrite Hadd. simpl.
  destruct (PyObject_Vectorcall (wrapped self) argv len_args kwnames) eqn:Hres.
  - simpl. eexists. split; [reflexivity|]. intros _ _. eauto.
  - rewrite (ssize_incr_in_range 1 _ ltac:(lia) Her). simpl.
    eexists. split; [reflexivity|]. intros _ _. eauto.
Qed.

(** ** What a completed call has counted, entry by entry *)

Lemma classify_all_app a xs ys :
  classify_all a (xs ++ ys) = a1 ← classify_all a xs; classify_all a1 ys.
Proof.
  revert a. induction xs as [|x xs IH]; intros a; simpl; [reflexivity|].
  destruct (handle_arg_stats a x) as [[a1 [|e]]|]; auto.
Qed.

Lemma classify_all_grows a xs a' :
  classify_all a xs = Some a' ->
  grows a a' ∧ count a' = count a + Z.of_nat (length xs).
Proof.
  revert a. induction xs as [|x xs IH]; intros a; simpl.
  - intros [= <-]. split; [reflexivity | lia].
  - destruct (handle_arg_stats a x) as [[a1 [|e]]|] eqn:Hh; try discriminate.
    intros [Hg Hc]%IH.
    apply handle_arg_stats_inv in Hh as (Hg1 & Hc1 & _).
    split; [etransitivity; eassumption | lia].
Qed.


Lemma positional_loop_slots n argv : ∀ i slots slots',
  0 ≤ i ->
  positional_loop n i slots argv = Some (slots', OK) ->
  ∀ k a, slots !! k = Some a ->
    ∃ a', slots' !! k = Some a' ∧
      classify_all a
        (if (i <=? Z.of_nat k) && (Z.of_nat k <? i + Z.of_nat n)
         then option_list (argv !! k) else []) = Some a'.
Proof.
  induction n as [|n IH]; intros i slots slots' Hi Hl k a Hk.
  - simpl in Hl. injection Hl as <-. exists a. split; [exact Hk|].
    replace ((i <=? Z.of_nat k) && (Z.of_nat k <? i + Z.of_nat 0))
      with false by bool_lia.
    reflexivity.
  - simpl in Hl.
    destruct (slots !! Z.to_nat i) as [ai|] eqn:Ha; [|discriminate].
    destruct (argv !! Z.to_nat i) as [xi|] eqn:Hx; [|discriminate].
    simpl in Hl.
    destruct (handle_arg_stats ai xi) as [[ai' [|e]]|] eqn:Hh;
      try discriminate. simpl in Hl.
    destruct (decide (k = Z.to_nat i)) as [->|Hne].
    + rewrite Ha in Hk. injection Hk as <-.
      assert (Hi1 : 0 ≤ i + 1) by lia.
      destruct (IH (i + 1) _ _ Hi1 Hl (Z.to_nat i) ai') as (a' & Ha' & Hc).
      { apply list_lookup_insert_eq. eapply lookup_lt_Some, Ha. }
      exists a'. split; [exact Ha'|].
      replace ((i + 1 <=? Z.of_nat (Z.to_nat i)) &&
               (Z.of_nat (Z.to_nat i) <? i + 1 + Z.of_nat n))
        with false in Hc by bool_lia.
      replace ((i <=? Z.of_nat (Z.to_nat i)) &&
               (Z.of_nat (Z.to_nat i) <? i + Z.of_nat (S n)))
        with true by bool_lia.
      rewrite Hx. simpl. rewrite Hh. exact Hc.
    + assert (Hi1 : 0 ≤ i + 1) by lia.
      destruct (IH (i + 1) _ _ Hi1 Hl k a) as (a' & Ha' & Hc).
      { rewrite list_lookup_insert_ne by congruence. exact Hk. }
      exists a'. split; [exact Ha'|].
      replace ((i <=? Z.of_nat k) && (Z.of_nat k <? i + Z.of_nat (S n)))
        with ((i + 1 <=? Z.of_nat k) && (Z.of_nat k <? i + 1 + Z.of_nat n))
        by bool_lia.
      exact Hc.
Qed.

Lemma keyword_values_grows slots slots' first names vals k :
  Forall2 grows slots slots' ->
  keyword_values slots' first names vals k
  = keyword_values slots first names vals k.
Proof.
  intros Hg. revert vals. induction names as [|name rest IH]; intros vals;
    [reflexivity|].
  destruct vals as [|v vals]; [reflexivity|]. simpl.
  rewrite (tracked_at_grows _ _ _ _ Hg), IH. reflexivity.
Qed.

Lemma keyword_loop_slots names argv nargs first :
  ∀ i slots invalid slots' invalid',
  0 ≤ nargs + i ->
  keyword_loop names i nargs first slots argv invalid
    = Some (slots', invalid', OK) ->
  (∀ k a, slots !! k = Some a ->
     ∃ a', slots' !! k = Some a' ∧
       classify_all a
         (keyword_values slots first names (drop (Z.to_nat (nargs + i)) argv) k)
       = Some a') ∧
  invalid' =
    (if forallb (λ name, bool_decide (is_Some (tracked_at slots first name)))
          names
     then invalid else 1) ∧
  (∀ name, name ∈ names -> ∃ p, find_arginfo slots first name = Some (inl p)).
Proof.
  induction names as [|name rest IH]; intros i slots invalid slots' invalid' Hi Hl.
  - simpl in Hl. injection Hl as <- <-. split; [|split].
    + intros k a Hk. exists a. split; [exact Hk | reflexivity].
    + reflexivity.
    + intros name Hin. by apply not_elem_of_nil in Hin.
  - simpl in Hl.
    destruct (nargs + i <? 0) eqn:Hneg; [apply Z.ltb_lt in Hneg; lia|].
    destruct (argv !! Z.to_nat (nargs + i)) as [arg|] eqn:Harg; [|discriminate].
    simpl in Hl.
    rewrite (drop_S _ _ _ Harg).
    replace (S (Z.to_nat (nargs + i))) with (Z.to_nat (nargs + (i + 1))) by lia.
    destruct (find_arginfo slots first name) as [[p|e]|] eqn:Hfind;
      try discriminate. simpl in Hl.
    destruct (slots !! p) as [ap|] eqn:Hp; [|discriminate]. simpl in Hl.
    assert (Htr : tracked_at slots first name
                  = if bool_decide (is_Some (kwname ap)) then Some p else None).
    { unfold tracked_at. rewrite Hfind, Hp. reflexivity. }
    destruct (kwname ap) as [kn|] eqn:Hkn.
    + rewrite bool_decide_eq_true_2 in Htr by eauto.
      destruct (handle_arg_stats ap arg) as [[ap' [|e]]|] eqn:Hh;
        try discriminate. simpl in Hl.
      pose proof (grows_insert _ _ _ _ Hp (handle_arg_stats_grows _ _ _ _ Hh))
        as Hgs.
      assert (Hi1 : 0 ≤ nargs + (i + 1)) by lia.
      destruct (IH (i + 1) _ _ _ _ Hi1 Hl) as (IH1 & IH2 & IH3).
      split; [|split].
      * intros k a Hk. simpl. rewrite Htr.
        destruct (decide (k = p)) as [->|Hne].
        -- rewrite Hp in Hk. injection Hk as <-.
           destruct (IH1 p ap') as (a' & Ha' & Hc).
           { apply list_lookup_insert_eq. eapply lookup_lt_Some, Hp. }
           exists a'. split; [exact Ha'|].
           rewrite decide_True by reflexivity. simpl. rewrite Hh.
           rewrite (keyword_values_grows _ _ _ _ _ _ Hgs) in Hc. exact Hc.
        -- destruct (IH1 k a) as (a' & Ha' & Hc).
           { rewrite list_lookup_insert_ne by congruence. exact Hk. }
           exists a'. split; [exact Ha'|].
           rewrite decide_False by congruence.
           rewrite (keyword_values_grows _ _ _ _ _ _ Hgs) in Hc. exact Hc.
      * rewrite IH2. simpl. rewrite Htr.
        rewrite bool_decide_eq_true_2 by eauto. simpl.
        rewrite (forallb_ext _
                   (λ name, bool_decide (is_Some (tracked_at slots first name))));
          [reflexivity|].
        intros name'. by rewrite (tracked_at_grows _ _ _ _ Hgs).
      * intros name' [->|Hin]%elem_of_cons; [eauto|].
        destruct (IH3 name' Hin) as [q Hq].
        rewrite (find_arginfo_grows _ _ _ _ Hgs) in Hq. eauto.
    + rewrite bool_decide_eq_false_2 in Htr by (intros [? ?]; discriminate).
      assert (Hi1 : 0 ≤ nargs + (i + 1)) by lia.
      destruct (IH (i + 1) _ _ _ _ Hi1 Hl) as (IH1 & IH2 & IH3).
      split; [|split].
      * intros k a Hk. simpl. rewrite Htr.
        destruct (IH1 k a Hk) as (a' & Ha' & Hc).
        exists a'. split; [exact Ha'|].
        rewrite decide_False by discriminate. exact Hc.
      * rewrite IH2. simpl. rewrite Htr.
        rewrite bool_decide_eq_false_2 by (intros [? ?]; discriminate).
        simpl. destruct (forallb _ rest); reflexivity.
      * intros name' [->|Hin]%elem_of_cons; eauto.
Qed.

(** The entries, the invalid flag and the name look-ups of a call that
    reaches the wrapped callable. *)
Lemma statswrapper_vectorcall_slots self argv len_args kwnames self' res :
  statswrapper_vectorcall self argv len_args kwnames
    = Some (Delegated self' res) ->
  let nargs := PyVectorcall_NARGS len_args in
  let names := default [] kwnames in
  (∀ k a, args self !! k = Some a ->
     ∃ a', args self' !! k = Some a' ∧
       classify_all a
         (positional_values argv (Z.min nargs (npos self)) k ++
          keyword_values (args self) (npos_only self) names
            (drop (Z.to_nat nargs) argv) k) = Some a') ∧
  invalid_args self' =
    invalid_args self +
    (if (npos self <? nargs)
        || negb (forallb (λ name, bool_decide
                   (is_Some (tracked_at (args self) (npos_only self) name)))
                   names)
     then 1 else 0) ∧
  (∀ name, name ∈ names ->
     ∃ p, find_arginfo (args self) (npos_only self) name = Some (inl p)).
Proof.
  intros H0 nargs names. unfold statswrapper_vectorcall in H0.
  fold nargs in H0. fold names in H0.
  pose proof (PyVectorcall_NARGS_nonneg len_args) as Hnn. fold nargs in Hnn.
  set (flag := if npos self <? nargs then (1, npos self) else (0, nargs)) in H0.
  assert (Hflag : flag = (if npos self <? nargs then 1 else 0,
                          Z.min nargs (npos self))).
  { unfold flag. destruct (npos self <? nargs) eqn:Hlt.
    - apply Z.ltb_lt in Hlt. f_equal. lia.
    - apply Z.ltb_ge in Hlt. f_equal. lia. }
  rewrite Hflag in H0. clear flag Hflag.
  set (nv := Z.min nargs (npos self)) in *.
  destruct (positional_loop (Z.to_nat nv) 0 (args self) argv)
    as [[slots1 [|e1]]|] eqn:Hp; try discriminate. simpl in H0.
  destruct (keyword_loop names 0 nargs (npos_only self) slots1 argv _)
    as [[[slots2 inv2] [|e2]]|] eqn:Hk; try discriminate. simpl in H0.
  destruct (ssize_incr (total_calls self)) as [tc|]; [|discriminate].
  simpl in H0.
  destruct (ssize_add (invalid_args self) inv2) as [ia|] eqn:Hia;
    [|discriminate]. simpl in H0.
  apply ssize_add_Some in Hia as [-> _].
  assert (Hself : args self' = slots2 ∧
                  invalid_args self' = invalid_args self + inv2).
  { destruct (PyObject_Vectorcall (wrapped self) argv len_args kwnames).
    - simpl in H0. injection H0 as <- _. auto.
    - destruct (ssize_incr (error_results self)); [|discriminate].
      simpl in H0. injection H0 as <- _. auto. }
  destruct Hself as [-> ->]. clear H0.
  pose proof (positional_loop_grows _ _ _ _ _ _ Hp) as Hg1.
  assert (H00 : 0 ≤ 0) by lia.
  pose proof (positional_loop_slots _ _ 0 _ _ H00 Hp) as Hps.
  assert (Hn0 : 0 ≤ nargs + 0) by lia.
  destruct (keyword_loop_slots _ _ _ _ 0 _ _ _ _ Hn0 Hk)
    as (Hks & Hinv & Hfind).
  replace (nargs + 0) with nargs in Hks by lia.
  split; [|split].
  - intros k a Ha.
    destruct (Hps k a Ha) as (a1 & Ha1 & Hc1).
    destruct (Hks k a1 Ha1) as (a2 & Ha2 & Hc2).
    exists a2. split; [exact Ha2|].
    rewrite classify_all_app. unfold positional_values.
    replace ((0 <=? Z.of_nat k) && (Z.of_nat k <? 0 + Z.of_nat (Z.to_nat nv)))
      with (Z.of_nat k <? nv) in Hc1 by bool_lia.
    rewrite Hc1. simpl.
    rewrite (keyword_values_grows _ _ _ _ _ _ Hg1) in Hc2. exact Hc2.
  - rewrite Hinv. clear Hinv. f_equal.
    replace (forallb (λ name, bool_decide
               (is_Some (tracked_at slots1 (npos_only self) name))) names)
      with (forallb (λ name, bool_decide
               (is_Some (tracked_at (args self) (npos_only self) name))) names).
    2:{ apply forallb_ext. intros name.
        rewrite (tracked_at_grows _ _ _ _ Hg1). reflexivity. }
    destruct (npos self <? nargs), (forallb _ names); reflexivity.
  - intros name Hin. destruct (Hfind name Hin) as [p Hp'].
    rewrite (find_arginfo_grows _ _ _ _ Hg1) in Hp'. eauto.
Qed.

(** ** Construction *)

Lemma create_loop_inv n nargs specs names : ∀ i l,
  create_loop n i nargs specs names = Some (inl l) ->
  length l = n ∧
  Forall (λ a, arginfo_ok a = true ∧ count a = 0) l ∧
  ∀ j a, l !! j = Some a -> named a = negb (i + Z.of_nat j <? nargs).
Proof.
  induction n as [|n IH]; intros i l; simpl.
  - intros [= <-]. split; [reflexivity|]. split; [constructor|].
    intros j a Hj. rewrite lookup_nil in Hj. discriminate.
  - destruct (specs !! Z.to_nat i) as [spec|]; [|discriminate]. simpl.
    destruct (create_arginfo nargs i spec names) as [[a|e]|] eqn:Hc;
      try discriminate. simpl.
    destruct (create_loop n (i + 1) nargs specs names) as [[l'|e]|] eqn:Hl;
      try discriminate. simpl. intros [= <-].
    destruct (IH _ _ Hl) as (Hlen & Hall & Hnamed).
    assert (Ha : arginfo_ok a = true ∧ count a = 0 ∧
                 named a = negb (i <? nargs)).
    { unfold create_arginfo in Hc.
      destruct (i <? nargs) eqn:Hi; simpl in Hc.
      - destruct (decide (spec = Py_None)).
        + injection Hc as <-. auto.
        + destruct (PyTuple_Check spec) as [items|]; [|discriminate].
          injection Hc as <-. unfold arginfo_ok, named. simpl.
          rewrite length_replicate, Nat.eqb_refl. auto.
      - destruct (names !! Z.to_nat (i - nargs)) as [k|]; [|discriminate].
        simpl in Hc. destruct (decide (spec = Py_None)).
        + injection Hc as <-. auto.
        + destruct (PyTuple_Check spec) as [items|]; [|discriminate].
          injection Hc as <-. unfold arginfo_ok, named. simpl.
          rewrite length_replicate, Nat.eqb_refl. auto. }
    destruct Ha as (Hok & Hcnt & Hnm).
    split; [simpl; lia|]. split; [constructor; auto|].
    intros [|j] b Hj; simpl in Hj.
    + injection Hj as <-. rewrite Hnm. f_equal. f_equal. lia.
    + rewrite (Hnamed j b Hj). f_equal. f_equal. lia.
Qed.

Lemma keyword_run_snoc tail t :
  forallb named tail = true -> named t = false ->
  keyword_run (tail ++ [t]) = true.
Proof.
  intros Hn Ht. induction tail as [|a [|b tail] IH].
  - simpl. rewrite Ht. reflexivity.
  - simpl in *. rewrite Ht. rewrite andb_true_r in Hn. rewrite Hn. reflexivity.
  - apply andb_true_iff in Hn as [Ha Hn].
    change (named a && keyword_run ((b :: tail) ++ [t]) = true).
    rewrite Ha, (IH Hn). reflexivity.
Qed.

(** What the factory returns: counters at zero, every declared parameter
    positional at first, and a well-formed array. *)
Lemma stats_wrapper_create_inv argv len_args kwnames self :
  stats_wrapper_create argv len_args kwnames = Some (PyReturn self) ->
  total_calls self = 0 ∧ error_results self = 0 ∧ invalid_args self = 0 ∧
  npos_only self = PyVectorcall_NARGS len_args - 1 ∧
  npos self = npos_only self + Z.of_nat (length (default [] kwnames)) ∧
  Py_SIZE self = npos self + 1 ∧
  well_formed self = true.
Proof.
  unfold stats_wrapper_create.
  set (nargs := PyVectorcall_NARGS len_args).
  set (names := default [] kwnames).
  destruct (nargs <? 1) eqn:Hn; [discriminate|]. apply Z.ltb_ge in Hn.
  destruct (argv !! 0%nat) as [w|]; [|discriminate]. simpl.
  destruct (create_loop _ 0 (nargs - 1) (drop 1 argv) names)
    as [[slots|e]|] eqn:Hl; try discriminate. simpl.
  intros [= <-]. unfold Py_SIZE. simpl.
  destruct (create_loop_inv _ _ _ _ _ _ Hl) as (Hlen & Hall & Hnamed).
  repeat split; try lia.
  unfold well_formed. simpl.
  rewrite length_app, Hlen. simpl.
  rewrite !andb_true_iff, Z.eqb_eq, !Z.leb_le. repeat split; try lia.
  - rewrite forallb_app. simpl. rewrite andb_true_r.
    apply forallb_Forall. eapply Forall_impl; [exact Hall|]. simpl. tauto.
  - rewrite drop_app_le by lia.
    apply keyword_run_snoc; [|reflexivity].
    apply forallb_Forall, Forall_lookup_2. intros j a Hj.
    rewrite lookup_drop in Hj. rewrite (Hnamed _ _ Hj).
    apply negb_true_iff, Z.ltb_ge. lia.
Qed.

(** ** The code against the searches of the specification *)

Lemma identity_scan_first_index known x : ∀ idx p,
  identity_scan known x idx =
  match first_index (λ k, bool_decide (k = x)) known p with
  | Some q => idx + (Z.of_nat q - Z.of_nat p)
  | None => idx + Z.of_nat (length known)
  end ∧
  (∀ q, first_index (λ k, bool_decide (k = x)) known p = Some q ->
        (p ≤ q < p + length known)%nat).
Proof.
  induction known as [|k rest IH]; intros idx p; simpl.
  - split; [lia | discriminate].
  - destruct (decide (k = x)) as [->|Hne].
    + rewrite bool_decide_eq_true_2 by reflexivity.
      split; [lia|]. intros q [= <-]. lia.
    + rewrite bool_decide_eq_false_2 by exact Hne.
      destruct (IH (idx + 1) (S p)) as [-> Hb]. split.
      * destruct (first_index _ rest (S p)) as [q|] eqn:Hq; [|lia].
        specialize (Hb q eq_refl). lia.
      * intros q Hq. specialize (Hb q Hq). lia.
Qed.

(** Without a failing comparison the second loop is the search by
    equality. *)
Lemma equality_scan_first_index known x : ∀ idx p,
  forallb (λ k, negb (cmp_failed (PyObject_RichCompareBool k x Py_EQ))) known
    = true ->
  equality_scan known x idx =
  inl match first_index
              (λ k, bool_decide (PyObject_RichCompareBool k x Py_EQ = CmpTrue))
              known p with
      | Some q => idx + (Z.of_nat q - Z.of_nat p)
      | None => idx + Z.of_nat (length known)
      end ∧
  (∀ q, first_index
          (λ k, bool_decide (PyObject_RichCompareBool k x Py_EQ = CmpTrue))
          known p = Some q ->
        (p ≤ q < p + length known)%nat).
Proof.
  induction known as [|k rest IH]; intros idx p Hb; simpl.
  - split; [f_equal; lia | discriminate].
  - simpl in Hb. apply andb_true_iff in Hb as [Hk Hb].
    destruct (PyObject_RichCompareBool k x Py_EQ) as [| |e] eqn:Hc;
      simpl in Hk; [| |discriminate]; simpl.
    + destruct (IH (idx + 1) (S p) Hb) as [-> Hq]. split.
      * f_equal.
        destruct (first_index _ rest (S p)) as [q|] eqn:Hq'; [|lia].
        specialize (Hq q eq_refl). lia.
      * intros q Hq'. specialize (Hq q Hq'). lia.
    + split; [f_equal; lia|]. intros q [= <-]. lia.
Qed.

Lemma insert_succ_alter (l : list Z) j c :
  l !! j = Some c -> <[j:=c + 1]> l = alter Z.succ j l.
Proof.
  revert j. induction l as [|y l IH]; intros [|j]; simpl; try discriminate.
  - intros [= ->]. reflexivity.
  - intros Hj. f_equal. apply IH, Hj.
Qed.

(** When no comparison with [x] fails, [handle_arg_stats] returns [0] and
    leaves the entry the specification describes. *)
Lemma handle_arg_stats_classify_spec a x a' st :
  match known_params a with
  | None => True
  | Some known =>
      forallb (λ k, negb (cmp_failed (PyObject_RichCompareBool k x Py_EQ)))
        known = true
  end ->
  handle_arg_stats a x = Some (a', st) ->
  st = OK ∧ a' = classify_spec a x.
Proof.
  intros Hb H0. unfold handle_arg_stats in H0. unfold classify_spec.
  destruct (ssize_incr (count a)) as [c|] eqn:Hc; [|discriminate].
  apply ssize_incr_Some in Hc as [-> _]. simpl in H0.
  destruct (known_params a) as [known|] eqn:Hk.
  2:{ injection H0 as <- <-. auto. }
  unfold match_index_spec. cbv zeta in H0.
  destruct (identity_scan_first_index known x 0 0) as [Hid Hidb].
  destruct (equality_scan_first_index known x 0 0 Hb) as [Heq Heqb].
  rewrite Hid, Heq in H0. clear Hid Heq.
  assert (Hupd : ∀ q,
            (q < length known)%nat ->
            (if 0 + (Z.of_nat q - Z.of_nat 0) =? Z.of_nat (length known)
             then Some (with_count a (count a + 1), OK)
             else
               pc ← param_counts (with_count a (count a + 1))
                      !! Z.to_nat (0 + (Z.of_nat q - Z.of_nat 0));
               pc' ← ssize_incr pc;
               Some (with_param_counts (with_count a (count a + 1))
                       (<[Z.to_nat (0 + (Z.of_nat q - Z.of_nat 0)) := pc']>
                          (param_counts (with_count a (count a + 1)))), OK))
            = Some (a', st) ->
            st = OK ∧
            a' = with_param_counts (with_count a (count a + 1))
                   (alter Z.succ q (param_counts a))).
  { intros q Hq H1.
    replace (0 + (Z.of_nat q - Z.of_nat 0) =? Z.of_nat (length known))
      with false in H1 by bool_lia_eq.
    replace (Z.to_nat (0 + (Z.of_nat q - Z.of_nat 0))) with q in H1 by lia.
    simpl in H1.
    destruct (param_counts a !! q) as [pc|] eqn:Hpc; [|discriminate].
    simpl in H1.
    destruct (ssize_incr pc) as [pc'|] eqn:Hpc'; [|discriminate].
    apply ssize_incr_Some in Hpc' as [-> _]. simpl in H1.
    injection H1 as <- <-. split; [reflexivity|].
    rewrite (insert_succ_alter _ _ _ Hpc). reflexivity. }
  destruct (first_index (λ k, bool_decide (k = x)) known 0) as [q|] eqn:Hq.
  - specialize (Hidb q eq_refl).
    replace (0 + (Z.of_nat q - Z.of_nat 0) =? Z.of_nat (length known))
      with false in H0 at 1 by bool_lia_eq.
    apply (Hupd q); [lia | exact H0].
  - replace (0 + Z.of_nat (length known) =? Z.of_nat (length known))
      with true in H0 by bool_lia_eq.
    destruct (first_index
                (λ k, bool_decide (PyObject_RichCompareBool k x Py_EQ = CmpTrue))
                known 0) as [q|] eqn:Hq'.
    + specialize (Heqb q eq_refl). apply (Hupd q); [lia | exact H0].
    + replace (0 + Z.of_nat (length known) =? Z.of_nat (length known))
        with true in H0 by bool_lia_eq.
      injection H0 as <- <-. auto.
Qed.

Lemma identity_walk_first_index tail name : ∀ p,
  keyword_run tail = true ->
  match first_index (stored_name_is name) tail p with
  | Some q =>
      identity_walk tail name p = Some q ∧ (p ≤ q)%nat ∧
      ∃ a, tail !! (q - p)%nat = Some a ∧ named a = true
  | None =>
      ∃ q a, identity_walk tail name p = Some q ∧ (p ≤ q)%nat ∧
             tail !! (q - p)%nat = Some a ∧ named a = false
  end.
Proof.
  induction tail as [|a [|b rest] IH]; intros p Hrun; [discriminate| |].
  - simpl in Hrun. apply negb_true_iff in Hrun.
    unfold named in Hrun. apply bool_decide_eq_false in Hrun.
    simpl. unfold stored_name_is.
    destruct (kwname a) as [k|] eqn:Hk; [exfalso; eauto|].
    exists p, a. rewrite Nat.sub_diag. unfold named. rewrite Hk.
    repeat split; auto.
  - apply andb_true_iff in Hrun as [Ha Hrun].
    specialize (IH (S p) Hrun).
    unfold named in Ha. apply bool_decide_eq_true in Ha as [k Hk].
    change (first_index (stored_name_is name) (a :: b :: rest) p)
      with (if stored_name_is name a then Some p
            else first_index (stored_name_is name) (b :: rest) (S p)).
    change (identity_walk (a :: b :: rest) name p)
      with (match kwname a with
            | None => Some p
            | Some k => if decide (k = name) then Some p
                        else identity_walk (b :: rest) name (S p)
            end).
    unfold stored_name_is at 1. rewrite Hk.
    destruct (decide (k = name)) as [->|Hne].
    + rewrite bool_decide_eq_true_2 by reflexivity.
      split; [reflexivity|]. split; [lia|].
      exists a. rewrite Nat.sub_diag. unfold named. rewrite Hk.
      split; [reflexivity|]. apply bool_decide_eq_true_2. eauto.
    + rewrite bool_decide_eq_false_2 by exact Hne.
      destruct (first_index (stored_name_is name) (b :: rest) (S p)) as [q|].
      * destruct IH as (Hw & Hq & a0 & Ha0 & Hn0).
        split; [exact Hw|]. split; [lia|]. exists a0. split; [|exact Hn0].
        replace (q - p)%nat with (S (q - S p)) by lia. exact Ha0.
      * destruct IH as (q & a0 & Hw & Hq & Ha0 & Hn0).
        exists q, a0. split; [exact Hw|]. split; [lia|]. split; [|exact Hn0].
        replace (q - p)%nat with (S (q - S p)) by lia. exact Ha0.
Qed.

Lemma equality_walk_first_index tail name : ∀ p q,
  keyword_run tail = true ->
  equality_walk tail name p = Some (inl q) ->
  (p ≤ q)%nat ∧
  match first_index (stored_name_equals name) tail p with
  | Some q' => q' = q ∧ ∃ a, tail !! (q - p)%nat = Some a ∧ named a = true
  | None => ∃ a, tail !! (q - p)%nat = Some a ∧ named a = false
  end.
Proof.
  induction tail as [|a [|b rest] IH]; intros p q Hrun Hw; [discriminate| |].
  - simpl in Hrun. apply negb_true_iff in Hrun.
    unfold named in Hrun. apply bool_decide_eq_false in Hrun.
    simpl in Hw |- *. unfold stored_name_equals.
    destruct (kwname a) as [k|] eqn:Hk; [exfalso; eauto|].
    injection Hw as <-. split; [lia|].
    exists a. rewrite Nat.sub_diag. unfold named. rewrite Hk. auto.
  - apply andb_true_iff in Hrun as [Ha Hrun].
    unfold named in Ha. apply bool_decide_eq_true in Ha as [k Hk].
    change (first_index (stored_name_equals name) (a :: b :: rest) p)
      with (if stored_name_equals name a then Some p
            else first_index (stored_name_equals name) (b :: rest) (S p)).
    change (equality_walk (a :: b :: rest) name p)
      with (match kwname a with
            | None => Some (inl p)
            | Some k =>
                let r := PyObject_RichCompareBool k name Py_EQ in
                let eq := eq_int r in
                match r with
                | CmpError e => Some (inr e)
                | _ => if eq =? 0 then equality_walk (b :: rest) name (S p)
                       else Some (inl p)
                end
            end) in Hw.
    unfold stored_name_equals at 1. rewrite Hk in Hw |- *.
    destruct (PyObject_RichCompareBool k name Py_EQ) as [| |e] eqn:Hc;
      cbv zeta in Hw; cbn [eq_int] in Hw; [| |discriminate].
    + rewrite bool_decide_eq_false_2 by discriminate.
      change (0 =? 0) with true in Hw. cbv iota in Hw.
      destruct (IH (S p) q Hrun Hw) as [Hq IH'].
      split; [lia|].
      destruct (first_index (stored_name_equals name) (b :: rest) (S p)) as [q'|].
      * destruct IH' as (-> & a0 & Ha0 & Hn0). split; [reflexivity|].
        exists a0. split; [|exact Hn0].
        replace (q - p)%nat with (S (q - S p)) by lia. exact Ha0.
      * destruct IH' as (a0 & Ha0 & Hn0). exists a0. split; [|exact Hn0].
        replace (q - p)%nat with (S (q - S p)) by lia. exact Ha0.
    + rewrite bool_decide_eq_true_2 by reflexivity.
      change (1 =? 0) with false in Hw. cbv iota in Hw.
      injection Hw as <-. split; [lia|]. split; [reflexivity|].
      exists a. rewrite Nat.sub_diag. unfold named. rewrite Hk.
      split; [reflexivity|]. apply bool_decide_eq_true_2. eauto.
Qed.

(** On a well-formed array, a look-up that ends without a failed
    comparison ends where the specification says. *)
Lemma tracked_at_locate_spec slots first name p :
  0 ≤ first ->
  keyword_run (drop (Z.to_nat first) slots) = true ->
  find_arginfo slots first name = Some (inl p) ->
  tracked_at slots first name = locate_spec slots first name.
Proof.
  intros Hf Hrun Hfind. unfold tracked_at. rewrite Hfind.
  unfold find_arginfo in Hfind. unfold locate_spec.
  destruct (first <? 0) eqn:Hneg; [apply Z.ltb_lt in Hneg; lia|].
  set (start := Z.to_nat first) in *.
  pose proof (identity_walk_first_index _ name start Hrun) as Hid.
  assert (Hlk : ∀ q, (start ≤ q)%nat ->
                     drop start slots !! (q - start)%nat = slots !! q).
  { intros q Hq. rewrite lookup_drop. f_equal. lia. }
  assert (Hnm : ∀ a, named a = bool_decide (is_Some (kwname a)))
    by reflexivity.
  destruct (first_index (stored_name_is name) (drop start slots) start) as [q|].
  - destruct Hid as (Hw & Hq & a & Ha & Hn). rewrite Hw in Hfind.
    simpl in Hfind. rewrite Hlk in Ha by exact Hq. rewrite Ha in Hfind.
    simpl in Hfind. rewrite Hnm in Hn. apply bool_decide_eq_true in Hn as Hn'.
    destruct (kwname a) eqn:Hk; [|by destruct Hn'].
    injection Hfind as <-. rewrite Ha, Hk. reflexivity.
  - destruct Hid as (q0 & a0 & Hw & Hq0 & Ha0 & Hn0). rewrite Hw in Hfind.
    simpl in Hfind. rewrite Hlk in Ha0 by exact Hq0. rewrite Ha0 in Hfind.
    simpl in Hfind. rewrite Hnm in Hn0. apply bool_decide_eq_false in Hn0 as Hn0'.
    destruct (kwname a0) eqn:Hk0; [exfalso; eauto|].
    destruct (equality_walk_first_index _ name start p Hrun Hfind) as [Hp Heq].
    destruct (first_index (stored_name_equals name) (drop start slots) start)
      as [q|].
    + destruct Heq as (-> & a & Ha & Hn).
      rewrite Hlk in Ha by exact Hp. rewrite Ha.
      rewrite Hnm in Hn. rewrite Hn. reflexivity.
    + destruct Heq as (a1 & Ha1 & Hn1).
      rewrite Hlk in Ha1 by exact Hp. rewrite Ha1.
      rewrite Hnm in Hn1. rewrite Hn1. reflexivity.
Qed.

(** ** Further facts about a call *)

Lemma first_index_ge {A} (f : A -> bool) (l : list A) : ∀ p q,
  first_index f l p = Some q -> (p ≤ q)%nat.
Proof.
  induction l as [|y l IH]; intros p q; simpl; [discriminate|].
  destruct (f y); [intros [= <-]; lia|]. intros Hq%IH. lia.
Qed.

Lemma locate_spec_ge slots first name p :
  locate_spec slots first name = Some p -> (Z.to_nat first ≤ p)%nat.
Proof.
  unfold locate_spec.
  destruct (first_index (stored_name_is name) _ _) as [q|] eqn:Hq.
  - intros [= <-]. eapply first_index_ge, Hq.
  - apply first_index_ge.
Qed.

Lemma keyword_values_elem slots first names : ∀ vals j name x k,
  names !! j = Some name -> vals !! j = Some x ->
  tracked_at slots first name = Some k ->
  x ∈ keyword_values slots first names vals k.
Proof.
  induction names as [|n0 names IH]; intros vals j name x k Hn Hv Ht.
  - rewrite lookup_nil in Hn. discriminate.
  - destruct vals as [|v vals]; [rewrite lookup_nil in Hv; discriminate|].
    simpl. destruct j as [|j]; simpl in Hn, Hv.
    + injection Hn as ->. injection Hv as ->.
      rewrite decide_True by exact Ht. apply list_elem_of_here.
    + pose proof (IH vals j name x k Hn Hv Ht) as Hin.
      destruct (decide (tracked_at slots first n0 = Some k));
        [apply list_elem_of_further|]; exact Hin.
Qed.

Lemma step_counters self self' :
  step self self' ->
  Forall2 grows (args self) (args self') ∧
  ((total_calls self' = total_calls self ∧
    error_results self' = error_results self ∧
    invalid_args self' = invalid_args self) ∨
   (total_calls self' = total_calls self + 1 ∧
    error_results self ≤ error_results self' ≤ error_results self + 1 ∧
    invalid_args self ≤ invalid_args self' ≤ invalid_args self + 1)).
Proof.
  intros [s argv len_args kwnames s' res Hc
         |s argv len_args kwnames s' e Hc
         |s arg s' ret err Hs].
  - apply statswrapper_vectorcall_inv in Hc
      as ((_ & Htc & Her & Hia & _) & Hg & _).
    split; [exact Hg|]. right. destruct res; lia.
  - apply statswrapper_vectorcall_inv in Hc as ((Htc & Her & Hia) & Hg & _).
    split; [exact Hg|]. left. auto.
  - unfold statswrapper__set_npos in Hs.
    destruct (PyLong_AsSsize_t arg); injection Hs as <- _ _; simpl;
      (split; [reflexivity | left; auto]).
Qed.




Lemma keyword_run_grows tail tail' :
  Forall2 grows tail tail' -> keyword_run tail' = keyword_run tail.
Proof.
  induction 1 as [|a a' l l' [Hs _] Hl IH]; [reflexivity|].
  assert (Hn : named a' = named a).
  { unfold shape in Hs. injection Hs as Hs _ _. unfold named. by rewrite Hs. }
  destruct Hl as [|b b' l l' Hb Hl].
  - simpl. by rewrite Hn.
  - change (named a' && keyword_run (b' :: l') = named a && keyword_run (b :: l)).
    by rewrite Hn, IH.
Qed.

(** A call, delegated or aborted, leaves a well-formed wrapper
    well-formed: [npos], [npos_only] and the shape of the array are not
    touched. *)
Lemma statswrapper_vectorcall_keeps_well_formed self argv len_args kwnames out :
  statswrapper_vectorcall self argv len_args kwnames = Some out ->
  well_formed self = true ->
  well_formed (match out with Aborted s _ | Delegated s _ => s end) = true.
Proof.
  intros Hout Hwf.
  apply statswrapper_vectorcall_inv in Hout as (_ & Hg & _ & Hnp & Hno & Hsz).
  cbv zeta in Hg, Hnp, Hno, Hsz.
  set (self' := match out with Aborted s _ | Delegated s _ => s end) in *.
  unfold well_formed in *.
  rewrite Hsz, Hnp, Hno, (grows_length _ _ Hg).
  rewrite (forallb_grows arginfo_ok _ _ arginfo_ok_shape Hg).
  rewrite (keyword_run_grows (drop (Z.to_nat (npos_only self)) (args self))
             (drop (Z.to_nat (npos_only self)) (args self')))
    by (apply Forall2_drop; exact Hg).
  exact Hwf.
Qed.

(** Within the range, [_set_npos] stores the new boundary, returns [None]
    without error and keeps the wrapper well-formed. *)
Lemma set_npos_in_range self arg n :
  PyLong_AsSsize_t arg = inl n ->
  npos_only self ≤ n ≤ Py_SIZE self - 1 ->
  statswrapper__set_npos self arg = (with_npos self n, Some Py_None, None) ∧
  (well_formed self = true -> well_formed (with_npos self n) = true).
Proof.
  intros Hn Hr. unfold statswrapper__set_npos. rewrite Hn.
  replace ((n <? npos_only self) || (Py_SIZE self - 1 <? n)) with false
    by bool_lia.
  split; [reflexivity|].
  unfold well_formed, Py_SIZE in *. simpl.
  rewrite !andb_true_iff, !Z.leb_le. intros (((((H1 & H2) & _) & _) & H5) & H6).
  repeat split; auto; lia.
Qed.




(** ** A failing comparison of a keyword name *)

Lemma equality_walk_failure before a k after name e : ∀ p,
  Forall (λ b, ∃ kb, kwname b = Some kb ∧
                     PyObject_RichCompareBool kb name Py_EQ = CmpFalse)
    before ->
  kwname a = Some k ->
  PyObject_RichCompareBool k name Py_EQ = CmpError e ->
  equality_walk (before ++ a :: after) name p = Some (inr e).
Proof.
  induction before as [|b before IH]; intros p Hb Hk Hc.
  - simpl. rewrite Hk. cbv zeta. rewrite Hc. reflexivity.
  - apply Forall_cons in Hb as [(kb & Hkb & Hcb) Hb].
    change (equality_walk ((b :: before) ++ a :: after) name p)
      with (match kwname b with
            | None => Some (inl p)
            | Some k =>
                let r := PyObject_RichCompareBool k name Py_EQ in
                let eq := eq_int r in
                match r with
                | CmpError e => Some (inr e)
                | _ => if eq =? 0
                       then equality_walk (before ++ a :: after) name (S p)
                       else Some (inl p)
                end
            end).
    rewrite Hkb. cbv zeta. rewrite Hcb. cbn [eq_int].
    change (0 =? 0) with true. cbv iota. apply IH; assumption.
Qed.

Lemma equality_walk_failure_inv tail name e : ∀ p,
  equality_walk tail name p = Some (inr e) ->
  ∃ before a k after,
    tail = before ++ a :: after ∧
    Forall (λ b, ∃ kb, kwname b = Some kb ∧
                       PyObject_RichCompareBool kb name Py_EQ = CmpFalse)
      before ∧
    kwname a = Some k ∧
    PyObject_RichCompareBool k name Py_EQ = CmpError e.
Proof.
  induction tail as [|b tail IH]; intros p; simpl; [discriminate|].
  destruct (kwname b) as [kb|] eqn:Hkb; [|discriminate].
  destruct (PyObject_RichCompareBool kb name Py_EQ) as [| |e0] eqn:Hc; simpl.
  - intros (before & a & k & after & -> & Hb & Hk & Hca)%IH.
    exists (b :: before), a, k, after. repeat split; auto.
    constructor; eauto.
  - discriminate.
  - intros [= <-]. exists [], b, kb, tail. repeat split; auto.
Qed.

(** The look-up returns the error of a comparison exactly when the
    comparisons of the name, taken in the order of the array, run into
    it. *)
Lemma name_comparison_fails_find slots first name e :
  0 ≤ first ->
  keyword_run (drop (Z.to_nat first) slots) = true ->
  name_comparison_fails slots first name e
  <-> find_arginfo slots first name = Some (inr e).
Proof.
  intros Hf Hrun. unfold name_comparison_fails, find_arginfo. cbv zeta.
  destruct (first <? 0) eqn:Hneg; [apply Z.ltb_lt in Hneg; lia|].
  set (start := Z.to_nat first) in *.
  pose proof (identity_walk_first_index _ name start Hrun) as Hid.
  assert (Hlk : ∀ q, (start ≤ q)%nat ->
                     drop start slots !! (q - start)%nat = slots !! q).
  { intros q Hq. rewrite lookup_drop. f_equal. lia. }
  destruct (first_index (stored_name_is name) (drop start slots) start) as [q|].
  - destruct Hid as (Hw & Hq & a & Ha & Hn). rewrite Hw. simpl.
    rewrite Hlk in Ha by exact Hq. rewrite Ha. simpl.
    unfold named in Hn. apply bool_decide_eq_true in Hn as [k Hk]. rewrite Hk.
    split; [intros [? _]; discriminate | discriminate].
  - destruct Hid as (q0 & a0 & Hw & Hq0 & Ha0 & Hn0). rewrite Hw. simpl.
    rewrite Hlk in Ha0 by exact Hq0. rewrite Ha0. simpl.
    unfold named in Hn0. apply bool_decide_eq_false in Hn0.
    destruct (kwname a0) eqn:Hk0; [exfalso; eauto|].
    split.
    + intros (_ & before & a & k & after & -> & Hb & Hk & Hc).
      apply equality_walk_failure with (k := k); assumption.
    + intros Hw'. split; [reflexivity|].
      eapply equality_walk_failure_inv, Hw'.
Qed.

Lemma positional_loop_benign n argv : ∀ i slots slots' e,
  positional_loop n i slots argv = Some (slots', ERR e) ->
  values_benign slots argv = true -> False.
Proof.
  induction n as [|n IH]; intros i slots slots' e; simpl; [discriminate|].
  destruct (slots !! Z.to_nat i) as [a|] eqn:Ha; [|discriminate]. simpl.
  destruct (argv !! Z.to_nat i) as [x|] eqn:Hx; [|discriminate]. simpl.
  destruct (handle_arg_stats a x) as [[a' [|e']]|] eqn:Hh; try discriminate;
    simpl.
  - intros Hl Hvb. eapply IH; [exact Hl|].
    rewrite (values_benign_grows slots); [exact Hvb|].
    eapply grows_insert; [exact Ha|]. eapply handle_arg_stats_grows, Hh.
  - intros _ Hvb.
    apply handle_arg_stats_inv in Hh as (_ & _ & _ & _ & _ & known & Hk & Hfs).
    eapply values_benign_no_fatal; [exact Hvb| | |exact Hk|exact Hfs].
    + eapply list_elem_of_lookup_2, Ha.
    + eapply list_elem_of_lookup_2, Hx.
Qed.

(** The keyword loop stops at the first name whose look-up fails, with
    the error of that look-up, when nothing before it stops the call. *)
Lemma keyword_loop_first_failure name after e argv nargs first :
  ∀ before i slots invalid slots' invalid' st,
  keyword_loop (before ++ name :: after) i nargs first slots argv invalid
    = Some (slots', invalid', st) ->
  terminated slots = true ->
  0 ≤ first < Z.of_nat (length slots) ->
  values_benign slots argv = true ->
  names_benign slots before = true ->
  find_arginfo slots first name = Some (inr e) ->
  st = ERR e.
Proof.
  induction before as [|n0 before IH];
    intros i slots invalid slots' invalid' st H0 Ht Hf Hvb Hnb Hfind.
  - simpl in H0.
    destruct (if nargs + i <? 0 then None else argv !! Z.to_nat (nargs + i))
      as [arg|]; [|discriminate]. simpl in H0.
    rewrite Hfind in H0. simpl in H0. congruence.
  - change ((n0 :: before) ++ name :: after)
      with (n0 :: (before ++ name :: after)) in H0.
    simpl in H0.
    destruct (if nargs + i <? 0 then None else argv !! Z.to_nat (nargs + i))
      as [arg|] eqn:Harg; [|discriminate]. simpl in H0.
    assert (Hin : arg ∈ argv).
    { destruct (nargs + i <? 0); [discriminate|].
      eapply list_elem_of_lookup_2, Harg. }
    destruct (find_arginfo slots first n0) as [[p|e0]|] eqn:Hfind0;
      try discriminate; simpl in H0.
    2:{ destruct (names_benign_find slots first (n0 :: before) n0 (inr e0))
          as (p & Hp & _); auto; [apply list_elem_of_here | discriminate]. }
    destruct (slots !! p) as [a|] eqn:Ha; [|discriminate]. simpl in H0.
    pose proof (names_benign_tail _ _ _ Hnb) as Hnb'.
    destruct (kwname a).
    + destruct (handle_arg_stats a arg) as [[a' [|e']]|] eqn:Hh;
        try discriminate; simpl in H0.
      * pose proof (grows_insert _ _ _ _ Ha (handle_arg_stats_grows _ _ _ _ Hh))
          as Hg.
        eapply IH; [exact H0| | | | |].
        -- rewrite (terminated_grows _ _ Hg). exact Ht.
        -- rewrite length_insert. exact Hf.
        -- rewrite (values_benign_grows _ _ _ Hg). exact Hvb.
        -- rewrite (names_benign_grows _ _ _ Hg). exact Hnb'.
        -- rewrite (find_arginfo_grows _ _ _ _ Hg). exact Hfind.
      * exfalso.
        apply handle_arg_stats_inv in Hh
          as (_ & _ & _ & _ & _ & known & Hk & Hfs).
        eapply values_benign_no_fatal; [exact Hvb| |exact Hin|exact Hk|exact Hfs].
        eapply list_elem_of_lookup_2, Ha.
    + eapply IH; eassumption.
Qed.

(** Where an aborted call has stopped: in the loop over the positional
    values, or in the loop over the keywords. *)
Lemma statswrapper_vectorcall_aborted_inv self argv len_args kwnames self' e :
  statswrapper_vectorcall self argv len_args kwnames = Some (Aborted self' e) ->
  ∃ nv invalid,
    (∃ slots1, positional_loop nv 0 (args self) argv = Some (slots1, ERR e)) ∨
    (∃ slots1 slots2 inv2,
       positional_loop nv 0 (args self) argv = Some (slots1, OK) ∧
       keyword_loop (default [] kwnames) 0 (PyVectorcall_NARGS len_args)
         (npos_only self) slots1 argv invalid
       = Some (slots2, inv2, ERR e)).
Proof.
  unfold statswrapper_vectorcall.
  destruct (if npos self <? PyVectorcall_NARGS len_args
            then (1, npos self) else (0, PyVectorcall_NARGS len_args))
    as [invalid nv].
  destruct (positional_loop (Z.to_nat nv) 0 (args self) argv)
    as [[slots1 [|e1]]|] eqn:Hp; try discriminate; simpl.
  2:{ intros [= _ <-]. exists (Z.to_nat nv), invalid. left. eauto. }
  destruct (keyword_loop _ 0 _ _ slots1 argv invalid)
    as [[[slots2 inv2] [|e2]]|] eqn:Hk; try discriminate; simpl.
  - destruct (ssize_incr (total_calls self)); [|discriminate]. simpl.
    destruct (ssize_add (invalid_args self) inv2); [|discriminate]. simpl.
    destruct (PyObject_Vectorcall (wrapped self) argv len_args kwnames);
      simpl; [discriminate|].
    destruct (ssize_incr (error_results self)); discriminate.
  - intros [= _ <-]. exists (Z.to_nat nv), invalid. right. eauto.
Qed.

(** A keyword name whose comparison with a stored name fails stops the
    call before the wrapped callable, with the counters of the wrapper as
    they were; the error is that of the comparison when nothing stops the
    call before. *)
Lemma failed_name_comparison_stops self argv len_args kwnames
    before name after e :
  well_formed self = true ->
  call_ok argv len_args kwnames = true ->
  headroom self (Z.of_nat (length argv)) = true ->
  default [] kwnames = before ++ name :: after ->
  name_comparison_fails (args self) (npos_only self) name e ->
  ∃ self' e',
    statswrapper_vectorcall self argv len_args kwnames
      = Some (Aborted self' e') ∧
    total_calls self' = total_calls self ∧
    error_results self' = error_results self ∧
    invalid_args self' = invalid_args self ∧
    (values_benign (args self) argv = true ->
     names_benign (args self) before = true -> e' = e).
Proof.
  intros Hwf Hcall Hroom Hnames Hfails.
  destruct (statswrapper_vectorcall_defined _ _ _ _ Hwf Hcall Hroom)
    as (out & Hout & _).
  pose proof (statswrapper_vectorcall_inv _ _ _ _ _ Hout) as [Hinv _].
  apply well_formed_inv in Hwf as (Hsz & Hno & Hnp & Hnpm & _ & Ht & Hrun).
  apply (name_comparison_fails_find _ _ _ _ Hno Hrun) in Hfails as Hfind.
  assert (Hin : name ∈ default [] kwnames).
  { rewrite Hnames. apply elem_of_app. right. apply list_elem_of_here. }
  destruct out as [self' e'|self' res].
  - exists self', e'. destruct Hinv as (H1 & H2 & H3).
    repeat split; try assumption.
    intros Hvb Hnb.
    destruct (statswrapper_vectorcall_aborted_inv _ _ _ _ _ _ Hout)
      as (nv & invalid & [[slots1 Hp]|(slots1 & slots2 & inv2 & Hp & Hk)]).
    + exfalso. eapply positional_loop_benign; eassumption.
    + pose proof (positional_loop_grows _ _ _ _ _ _ Hp) as Hg.
      rewrite Hnames in Hk.
      assert (He : ERR e' = ERR e); [|congruence].
      eapply keyword_loop_first_failure; [exact Hk| | | | |].
      * rewrite (terminated_grows _ _ Hg). exact Ht.
      * rewrite (grows_length _ _ Hg). lia.
      * rewrite (values_benign_grows _ _ _ Hg). exact Hvb.
      * rewrite (names_benign_grows _ _ _ Hg). exact Hnb.
      * rewrite (find_arginfo_grows _ _ _ _ Hg). exact Hfind.
  - exfalso.
    destruct (statswrapper_vectorcall_slots _ _ _ _ _ _ Hout) as (_ & _ & Hf).
    destruct (Hf name Hin) as [p Hp]. congruence.
Qed.

(** ** The claims *)

(** C1, as the code has it.  The specification asks that
    [set_positional_boundary(k)] with [k] below [positional_only_count] or
    above [total_slot_count] fail and leave the state unchanged.
    [statswrapper__set_npos] sets [ValueError] for such a [k] but does not
    return: it stores [k] in [npos] and returns [None] with the error
    pending. *)
Theorem set_npos_out_of_range_overwrites self arg n :
  PyLong_AsSsize_t arg = inl n ->
  n < npos_only self ∨ Py_SIZE self - 1 < n ->
  statswrapper__set_npos self arg
  = (with_npos self n, Some Py_None, Some PyExc_ValueError).
Proof.
  intros Hn Hr. unfold statswrapper__set_npos. rewrite Hn.
  replace ((n <? npos_only self) || (Py_SIZE self - 1 <? n)) with true;
    [reflexivity|].
  symmetry. apply orb_true_iff. rewrite !Z.ltb_lt. exact Hr.
Qed.



(** C4, amended.  A call that classification does not abort hands the
    original arguments to the wrapped callable and returns what it returns:
    its value, or its failure unchanged; [error_results] grows by one
    exactly when the delegated call fails.  An aborted call is not
    delegated and leaves [error_results] alone.  The call is not aborted
    when no known-value comparison fails critically and no name comparison
    fails. *)
Theorem delegation_is_transparent self argv len_args kwnames :
  well_formed self = true ->
  call_ok argv len_args kwnames = true ->
  headroom self (Z.of_nat (length argv)) = true ->
  (∀ self' res,
     statswrapper_vectorcall self argv len_args kwnames
       = Some (Delegated self' res) ->
     res = PyObject_Vectorcall (wrapped self) argv len_args kwnames ∧
     wrapped self' = wrapped self ∧
     error_results self' =
       error_results self +
       (match res with PyRaise _ => 1 | PyReturn _ => 0 end)) ∧
  (∀ self' e,
     statswrapper_vectorcall self argv len_args kwnames
       = Some (Aborted self' e) ->
     error_results self' = error_results self) ∧
  (values_benign (args self) argv = true ->
   names_benign (args self) (default [] kwnames) = true ->
   ∃ self',
     statswrapper_vectorcall self argv len_args kwnames
     = Some (Delegated self'
               (PyObject_Vectorcall (wrapped self) argv len_args kwnames))).
Proof.
  intros Hwf Hcall Hroom. split; [|split].
  - intros self' res Hout.
    apply statswrapper_vectorcall_inv in Hout as ((Hr & _ & He & _) & _ & Hw & _).
    auto.
  - intros self' e Hout.
    apply statswrapper_vectorcall_inv in Hout as ((_ & He & _) & _). exact He.
  - intros Hv Hn.
    destruct (statswrapper_vectorcall_defined _ _ _ _ Hwf Hcall Hroom)
      as (out & Hout & Hdone).
    destruct (Hdone Hv Hn) as [self' ->]. eauto.
Qed.

(** C7, amended.  Take a call with more positional arguments than
    [npos].  If classification does not abort it, the call is delegated
    and returns the result of the wrapped callable, [invalid_args] grows by
    exactly one, and entry [k] receives the positional value [k] only for
    [k < npos]: the values beyond are classified nowhere.  If
    classification aborts it, [invalid_args] is left as it was.  The call
    is not aborted when no known-value comparison fails critically and no
    name comparison fails. *)
Theorem excess_positional_arguments self argv len_args kwnames :
  well_formed self = true ->
  call_ok argv len_args kwnames = true ->
  headroom self (Z.of_nat (length argv)) = true ->
  npos self < PyVectorcall_NARGS len_args ->
  (∀ self' res,
     statswrapper_vectorcall self argv len_args kwnames
       = Some (Delegated self' res) ->
     res = PyObject_Vectorcall (wrapped self) argv len_args kwnames ∧
     invalid_args self' = invalid_args self + 1 ∧
     total_calls self' = total_calls self + 1 ∧
     ∀ k a, args self !! k = Some a ->
       ∃ a', args self' !! k = Some a' ∧
         classify_all a
           (positional_values argv (npos self) k ++
            keyword_values (args self) (npos_only self) (default [] kwnames)
              (drop (Z.to_nat (PyVectorcall_NARGS len_args)) argv) k)
         = Some a') ∧
  (∀ self' e,
     statswrapper_vectorcall self argv len_args kwnames
       = Some (Aborted self' e) ->
     invalid_args self' = invalid_args self) ∧
  (values_benign (args self) argv = true ->
   names_benign (args self) (default [] kwnames) = true ->
   ∃ self',
     statswrapper_vectorcall self argv len_args kwnames
     = Some (Delegated self'
               (PyObject_Vectorcall (wrapped self) argv len_args kwnames))).
Proof.
  intros Hwf Hcall Hroom Hex. split; [|split].
  - intros self' res Hout.
    pose proof (statswrapper_vectorcall_inv _ _ _ _ _ Hout)
      as ((Hres & Htc & _ & _ & Hia) & _).
    destruct (statswrapper_vectorcall_slots _ _ _ _ _ _ Hout) as (Hs & _ & _).
    split; [exact Hres|]. split; [exact (Hia Hex)|]. split; [exact Htc|].
    replace (Z.min (PyVectorcall_NARGS len_args) (npos self)) with (npos self)
      in Hs by lia.
    exact Hs.
  - intros self' e Hout.
    apply statswrapper_vectorcall_inv in Hout as ((_ & _ & Hia) & _). exact Hia.
  - intros Hv Hn.
    destruct (statswrapper_vectorcall_defined _ _ _ _ Hwf Hcall Hroom)
      as (out & Hout & Hdone).
    destruct (Hdone Hv Hn) as [self' ->]. eauto.
Qed.

(** C8, amended.  In a call that classification does not abort, each
    keyword name is looked up among the entries of index at least
    [npos_only], by identity of the stored name first and by equality if
    identity finds none ([locate_spec]); the call reaches the wrapped
    callable; [invalid_args] grows by one exactly when there are too many
    positional arguments or some name is found in no entry; a value whose
    name is found in no entry is counted nowhere, and a value whose name is
    found in entry [k] goes through [handle_arg_stats] on that entry, as
    positional values do.  The call is not aborted when no known-value
    comparison fails critically and no name comparison fails.  A failing
    name comparison aborts it: whenever [PyObject_RichCompareBool] raises
    on a stored name in the look-up of a keyword name of the call
    ([name_comparison_fails]), the call is aborted, neither forwarded
    ([total_calls] is as before) nor counted as invalid, and with the
    error of that comparison when nothing stops the call before it. *)
Theorem keyword_arguments_lookup self argv len_args kwnames :
  well_formed self = true ->
  call_ok argv len_args kwnames = true ->
  headroom self (Z.of_nat (length argv)) = true ->
  let nargs := PyVectorcall_NARGS len_args in
  let names := default [] kwnames in
  let located name := locate_spec (args self) (npos_only self) name in
  (∀ self' res,
     statswrapper_vectorcall self argv len_args kwnames
       = Some (Delegated self' res) ->
     res = PyObject_Vectorcall (wrapped self) argv len_args kwnames ∧
     (∀ name, name ∈ names ->
        tracked_at (args self) (npos_only self) name = located name) ∧
     invalid_args self' =
       invalid_args self +
       (if (npos self <? nargs)
           || negb (forallb (λ name, bool_decide (is_Some (located name)))
                      names)
        then 1 else 0) ∧
     ∀ k a, args self !! k = Some a ->
       ∃ a', args self' !! k = Some a' ∧
         classify_all a
           (positional_values argv (Z.min nargs (npos self)) k ++
            keyword_values (args self) (npos_only self) names
              (drop (Z.to_nat nargs) argv) k)
         = Some a') ∧
  (∀ name p, located name = Some p -> npos_only self ≤ Z.of_nat p) ∧
  (values_benign (args self) argv = true ->
   names_benign (args self) names = true ->
   ∃ self',
     statswrapper_vectorcall self argv len_args kwnames
     = Some (Delegated self'
               (PyObject_Vectorcall (wrapped self) argv len_args kwnames))) ∧
  (∀ before name after e,
     names = before ++ name :: after ->
     name_comparison_fails (args self) (npos_only self) name e ->
     ∃ self' e',
       statswrapper_vectorcall self argv len_args kwnames
         = Some (Aborted self' e') ∧
       invalid_args self' = invalid_args self ∧
       total_calls self' = total_calls self ∧
       (values_benign (args self) argv = true ->
        names_benign (args self) before = true -> e' = e)).
Proof.
  intros Hwf Hcall Hroom nargs names located. split; [|split; [|split]].
  4:{ intros before name after e Hnames Hfails.
      destruct (failed_name_comparison_stops _ _ _ _ _ _ _ _
                  Hwf Hcall Hroom Hnames Hfails)
        as (self' & e' & Hab & H1 & H2 & H3 & He).
      exists self', e'. auto. }
  - intros self' res Hout.
    pose proof (statswrapper_vectorcall_inv _ _ _ _ _ Hout)
      as ((Hres & _) & _).
    destruct (statswrapper_vectorcall_slots _ _ _ _ _ _ Hout)
      as (Hs & Hia & Hfind).
    apply well_formed_inv in Hwf as (_ & Hno & _ & _ & _ & _ & Hrun).
    assert (Hloc : ∀ name, name ∈ names ->
              tracked_at (args self) (npos_only self) name = located name).
    { intros name Hin. destruct (Hfind name Hin) as [p Hp].
      eapply tracked_at_locate_spec; eassumption. }
    split; [exact Hres|]. split; [exact Hloc|]. split; [|exact Hs].
    rewrite Hia.
    rewrite (forallb_Forall_ext
               (λ name, bool_decide
                  (is_Some (tracked_at (args self) (npos_only self) name)))
               (λ name, bool_decide (is_Some (located name)))
               (default [] kwnames)); [reflexivity|].
    intros name Hin. rewrite (Hloc name Hin). reflexivity.
  - apply well_formed_inv in Hwf as (_ & Hno & _).
    intros name p Hp%locate_spec_ge. lia.
  - intros Hv Hn.
    destruct (statswrapper_vectorcall_defined _ _ _ _ Hwf Hcall Hroom)
      as (out & Hout & Hdone).
    destruct (Hdone Hv Hn) as [self' ->]. eauto.
Qed.

(** C9.  In every state reached from construction by calls and
    reconfigurations, [error_results] and [invalid_args] are at most
    [total_calls] (and none is negative), and whatever calls and
    reconfigurations follow, none of the three, nor the count of an entry,
    nor a per-value count, gets smaller. *)
Theorem counters_monotone_and_bounded self :
  reachable self ->
  (0 ≤ error_results self ≤ total_calls self ∧
   0 ≤ invalid_args self ≤ total_calls self) ∧
  ∀ self', rtc step self self' ->
    total_calls self ≤ total_calls self' ∧
    error_results self ≤ error_results self' ∧
    invalid_args self ≤ invalid_args self' ∧
    Forall2 grows (args self) (args self').
Proof.
  intros Hr. split.
  - induction Hr as [argv len_args kwnames self Hc|self self' _ IH Hs].
    + apply stats_wrapper_create_inv in Hc as (-> & -> & -> & _). lia.
    + apply step_counters in Hs as [_ Hs]. lia.
  - clear Hr. intros self' Hs.
    induction Hs as [s|s1 s2 s3 H12 _ IH].
    + repeat split; try lia. reflexivity.
    + apply step_counters in H12 as [Hg H12].
      destruct IH as (H1 & H2 & H3 & H4).
      repeat split; try lia. etransitivity; eassumption.
Qed.

(** C10, amended.  Let entry [i], with [npos_only <= i < npos], receive
    the positional value [x] of the call and be the entry in which the
    keyword [name] of the same call is counted.  If classification does
    not abort the call, entry [i] has gone through [handle_arg_stats] for
    [x] and then for each keyword value counted in it, so its count has
    grown by one for [x] and by one for each of these values (by two when
    [name] is the only one); the call is delegated with the arguments as
    they were given; and with no excess positional argument and every name
    found, [invalid_args] is unchanged.  The call is not aborted when no
    known-value comparison fails critically and no name comparison
    fails. *)
Theorem positional_and_keyword_same_entry self argv len_args kwnames
    (i j : nat) name a x :
  well_formed self = true ->
  call_ok argv len_args kwnames = true ->
  headroom self (Z.of_nat (length argv)) = true ->
  npos_only self ≤ Z.of_nat i < npos self ->
  Z.of_nat i < PyVectorcall_NARGS len_args ->
  argv !! i = Some x ->
  default [] kwnames !! j = Some name ->
  tracked_at (args self) (npos_only self) name = Some i ->
  args self !! i = Some a ->
  let nargs := PyVectorcall_NARGS len_args in
  let names := default [] kwnames in
  let by_name :=
    keyword_values (args self) (npos_only self) names
      (drop (Z.to_nat nargs) argv) i in
  (∀ self' res,
     statswrapper_vectorcall self argv len_args kwnames
       = Some (Delegated self' res) ->
     res = PyObject_Vectorcall (wrapped self) argv len_args kwnames ∧
     ∃ a',
       args self' !! i = Some a' ∧
       classify_all a (x :: by_name) = Some a' ∧
       (1 ≤ length by_name)%nat ∧
       count a' = count a + 1 + Z.of_nat (length by_name) ∧
       (length by_name = 1%nat -> count a' = count a + 2) ∧
       (nargs ≤ npos self ->
        forallb (λ name, bool_decide
                   (is_Some (tracked_at (args self) (npos_only self) name)))
          names = true ->
        invalid_args self' = invalid_args self)) ∧
  (values_benign (args self) argv = true ->
   names_benign (args self) names = true ->
   ∃ self',
     statswrapper_vectorcall self argv len_args kwnames
     = Some (Delegated self'
               (PyObject_Vectorcall (wrapped self) argv len_args kwnames))).
Proof.
  intros Hwf Hcall Hroom Hi Hin Hx Hj Ht Ha nargs names by_name. split.
  - intros self' res Hout.
    pose proof (statswrapper_vectorcall_inv _ _ _ _ _ Hout)
      as ((Hres & _) & _).
    destruct (statswrapper_vectorcall_slots _ _ _ _ _ _ Hout) as (Hs & Hia & _).
    destruct (Hs i a Ha) as (a' & Ha' & Hc).
    unfold positional_values in Hc.
    replace (Z.of_nat i <? Z.min (PyVectorcall_NARGS len_args) (npos self))
      with true in Hc by bool_lia.
    rewrite Hx in Hc. simpl in Hc.
    split; [exact Hres|]. exists a'. split; [exact Ha'|]. split; [exact Hc|].
    assert (Hlen : (1 ≤ length by_name)%nat).
    { unfold call_ok in Hcall. apply Z.eqb_eq in Hcall.
      pose proof (PyVectorcall_NARGS_nonneg len_args) as Hnn.
      apply lookup_lt_Some in Hj as Hjlt.
      destruct (argv !! (Z.to_nat nargs + j)%nat) as [v|] eqn:Hvj.
      2:{ apply lookup_ge_None in Hvj. fold names in Hcall, Hjlt.
          unfold nargs in *. lia. }
      assert (Hel : v ∈ by_name).
      { eapply keyword_values_elem; [exact Hj| |exact Ht].
        rewrite lookup_drop. exact Hvj. }
      destruct by_name; [by apply not_elem_of_nil in Hel | simpl; lia]. }
    split; [exact Hlen|].
    apply (classify_all_grows a (x :: by_name)) in Hc as [_ Hcnt].
    simpl length in Hcnt.
    split; [lia|]. split; [intros H1; lia|].
    intros Hle Hall. rewrite Hia. fold nargs names. rewrite Hall.
    replace (npos self <? nargs) with false by bool_lia. simpl. lia.
  - intros Hv Hn.
    destruct (statswrapper_vectorcall_defined _ _ _ _ Hwf Hcall Hroom)
      as (out & Hout & Hdone).
    destruct (Hdone Hv Hn) as [self' ->]. eauto.
Qed.

(** ** Further properties of the code *)

(** *** The factory *)

Lemma create_arginfo_spec_ok nargs i spec names r :
  create_arginfo nargs i spec names = Some r ->
  match r with
  | inl _ => spec_ok spec = true
  | inr e => e = PyExc_TypeError ∧ spec_ok spec = false
  end.
Proof.
  unfold create_arginfo, spec_ok.
  destruct (if i <? nargs then Some None
            else k ← names !! Z.to_nat (i - nargs);
                 Some (Some (PyUnicode_InternInPlace k))) as [name|];
    [|discriminate]. simpl.
  destruct (decide (spec = Py_None)) as [Hs|Hs].
  - intros [= <-]. rewrite bool_decide_eq_true_2 by exact Hs. reflexivity.
  - rewrite (bool_decide_eq_false_2 _ Hs).
    destruct (PyTuple_Check spec) as [items|].
    + intros [= <-]. rewrite bool_decide_eq_true_2 by eauto. reflexivity.
    + intros [= <-]. split; [reflexivity|].
      rewrite bool_decide_eq_false_2 by (intros [? ?]; discriminate).
      reflexivity.
Qed.

Lemma create_arginfo_defined nargs i spec names :
  i < nargs ∨ 0 ≤ i - nargs < Z.of_nat (length names) ->
  is_Some (create_arginfo nargs i spec names).
Proof.
  intros Hi. unfold create_arginfo.
  destruct (i <? nargs) eqn:Hlt; simpl.
  - destruct (decide (spec = Py_None)); [eauto|].
    destruct (PyTuple_Check spec); eauto.
  - apply Z.ltb_ge in Hlt.
    destruct (names !! Z.to_nat (i - nargs)) as [k|] eqn:Hk.
    2:{ apply lookup_ge_None in Hk. lia. }
    simpl. destruct (decide (spec = Py_None)); [eauto|].
    destruct (PyTuple_Check spec); eauto.
Qed.

Lemma create_loop_result n nargs specs names : ∀ i,
  0 ≤ i ->
  (Z.to_nat i + n ≤ length specs)%nat ->
  i + Z.of_nat n ≤ nargs + Z.of_nat (length names) ->
  ∃ r, create_loop n i nargs specs names = Some r ∧
       match r with
       | inl l =>
           forallb spec_ok (take n (drop (Z.to_nat i) specs)) = true
       | inr e =>
           e = PyExc_TypeError ∧
           forallb spec_ok (take n (drop (Z.to_nat i) specs)) = false
       end.
Proof.
  induction n as [|n IH]; intros i Hi Hls Hln.
  - exists (inl []). split; reflexivity.
  - simpl.
    destruct (specs !! Z.to_nat i) as [spec|] eqn:Hs.
    2:{ apply lookup_ge_None in Hs. lia. }
    simpl. rewrite (drop_S _ _ _ Hs). simpl.
    destruct (create_arginfo_defined nargs i spec names) as [r Hr]; [lia|].
    rewrite Hr. simpl.
    pose proof (create_arginfo_spec_ok _ _ _ _ _ Hr) as Hok.
    destruct r as [a|e].
    + rewrite Hok. simpl.
      destruct (IH (i + 1)) as (r' & Hr' & Hm); try lia.
      rewrite Hr'. simpl.
      replace (Z.to_nat (i + 1)) with (S (Z.to_nat i)) in Hm by lia.
      destruct r' as [l|e]; eexists; (split; [reflexivity | exact Hm]).
    + destruct Hok as [-> Hok]. rewrite Hok.
      exists (inr PyExc_TypeError). auto.
Qed.

(** X1.  The factory, called with [nargs] positional values and one value
    per keyword name: without a callable it raises [TypeError]; with one,
    it returns a wrapper when every specification is [None] or a tuple, and
    raises [TypeError] as soon as one is neither. *)
Theorem stats_wrapper_create_accepts argv len_args kwnames :
  call_ok argv len_args kwnames = true ->
  (PyVectorcall_NARGS len_args < 1 ->
   stats_wrapper_create argv len_args kwnames = Some (PyRaise PyExc_TypeError)) ∧
  (1 ≤ PyVectorcall_NARGS len_args ->
   if forallb spec_ok (drop 1 argv)
   then ∃ self, stats_wrapper_create argv len_args kwnames
                = Some (PyReturn self)
   else stats_wrapper_create argv len_args kwnames
        = Some (PyRaise PyExc_TypeError)).
Proof.
  intros Hcall. unfold call_ok in Hcall. apply Z.eqb_eq in Hcall.
  unfold stats_wrapper_create.
  set (nargs := PyVectorcall_NARGS len_args) in *.
  set (names := default [] kwnames) in *.
  split.
  - intros Hn. replace (nargs <? 1) with true by bool_lia. reflexivity.
  - intros Hn. replace (nargs <? 1) with false by bool_lia.
    destruct (argv !! 0%nat) as [w|] eqn:Hw.
    2:{ apply lookup_ge_None in Hw. lia. }
    simpl.
    destruct (create_loop_result
                (Z.to_nat (nargs - 1 + Z.of_nat (length names)))
                (nargs - 1) (drop 1 argv) names 0)
      as (r & Hr & Hm); try lia.
    { rewrite length_drop. lia. }
    rewrite Hr. simpl. change (Z.to_nat 0) with 0%nat in Hm.
    rewrite drop_0 in Hm.
    rewrite take_ge in Hm by (rewrite length_drop; lia).
    destruct r as [l|e].
    + rewrite Hm. eauto.
    + destruct Hm as [-> ->]. reflexivity.
Qed.

Lemma create_loop_lookup n nargs specs names : ∀ i l,
  0 ≤ i ->
  create_loop n i nargs specs names = Some (inl l) ->
  ∀ j a, l !! j = Some a ->
    ∃ spec, specs !! (Z.to_nat i + j)%nat = Some spec ∧
            create_arginfo nargs (i + Z.of_nat j) spec names = Some (inl a).
Proof.
  induction n as [|n IH]; intros i l Hi; simpl.
  - intros [= <-] j a Hj. rewrite lookup_nil in Hj. discriminate.
  - destruct (specs !! Z.to_nat i) as [spec|] eqn:Hs; [|discriminate]. simpl.
    destruct (create_arginfo nargs i spec names) as [[a0|e]|] eqn:Hc;
      try discriminate. simpl.
    destruct (create_loop n (i + 1) nargs specs names) as [[l'|e]|] eqn:Hl;
      try discriminate. simpl. intros [= <-] j a Hj.
    destruct j as [|j]; simpl in Hj.
    + injection Hj as <-. exists spec.
      rewrite Nat.add_0_r, Z.add_0_r. auto.
    + assert (Hi1 : 0 ≤ i + 1) by lia.
      destruct (IH (i + 1) l' Hi1 Hl j a Hj) as (spec' & Hs' & Hc').
      exists spec'. split.
      * replace (Z.to_nat i + S j)%nat with (Z.to_nat (i + 1) + j)%nat by lia.
        exact Hs'.
      * replace (i + Z.of_nat (S j)) with (i + 1 + Z.of_nat j) by lia.
        exact Hc'.
Qed.

(** X2.  What [_get_param_stats] reports on a wrapper fresh from the
    factory: one entry per specification, in order; every count is zero;
    the positional entries have no name and the keyword entries the
    interned keyword name; the known values are the items of the tuple
    given ([None] for [None]), with one zero count for each. *)
Theorem fresh_wrapper_param_stats argv len_args kwnames self :
  stats_wrapper_create argv len_args kwnames = Some (PyReturn self) ->
  let nargs := PyVectorcall_NARGS len_args - 1 in
  let names := default [] kwnames in
  length (statswrapper__get_param_stats self)
    = Z.to_nat (nargs + Z.of_nat (length names)) ∧
  ∀ k nm c kn pcs,
    statswrapper__get_param_stats self !! k = Some (nm, c, kn, pcs) ->
    c = 0 ∧
    nm = (if Z.of_nat k <? nargs then None
          else PyUnicode_InternInPlace <$> names !! Z.to_nat (Z.of_nat k - nargs)) ∧
    (∃ spec, argv !! S k = Some spec ∧
             kn = if decide (spec = Py_None) then None
                  else PyTuple_Check spec) ∧
    pcs = (λ items, replicate (length items) 0) <$> kn.
Proof.
  intros Hc nargs names. unfold stats_wrapper_create in Hc.
  fold names in Hc.
  destruct (PyVectorcall_NARGS len_args <? 1) eqn:Hn; [discriminate|].
  apply Z.ltb_ge in Hn.
  destruct (argv !! 0%nat) as [w|]; [|discriminate]. simpl in Hc.
  fold nargs in Hc.
  destruct (create_loop _ 0 nargs (drop 1 argv) names) as [[slots|e]|] eqn:Hl;
    try discriminate. simpl in Hc. injection Hc as <-.
  destruct (create_loop_inv _ _ _ _ _ _ Hl) as (Hlen & _ & _).
  unfold statswrapper__get_param_stats, Py_SIZE. simpl.
  replace (Z.to_nat (nargs + Z.of_nat (length names) + 1 - 1))
    with (length slots) by lia.
  rewrite take_app_length. split.
  - rewrite length_fmap. lia.
  - intros k nm c kn pcs Hk.
    rewrite list_lookup_fmap in Hk.
    destruct (slots !! k) as [a|] eqn:Ha; [|discriminate].
    simpl in Hk. injection Hk as <- <- <- <-.
    assert (H00 : 0 ≤ 0) by lia.
    destruct (create_loop_lookup _ _ _ _ 0 slots H00 Hl k a Ha)
      as (spec & Hs & Hca).
    rewrite lookup_drop in Hs. simpl in Hs.
    rewrite Z.add_0_l in Hca. unfold create_arginfo in Hca.
    assert (Hsplit : ∀ nm0,
              (if decide (spec = Py_None)
               then Some (inl {| kwname := nm0; known_params := None;
                                 count := 0; param_counts := [] |})
               else match PyTuple_Check spec with
                    | None => Some (inr PyExc_TypeError)
                    | Some items =>
                        Some (inl {| kwname := nm0; known_params := Some items;
                                     count := 0;
                                     param_counts := replicate (length items) 0 |})
                    end) = Some (inl a) ->
              kwname a = nm0 ∧ count a = 0 ∧
              known_params a = (if decide (spec = Py_None) then None
                                else PyTuple_Check spec) ∧
              match known_params a with
              | None => None
              | Some _ => Some (param_counts a)
              end = (λ items, replicate (length items) 0) <$> known_params a).
    { intros nm0. destruct (decide (spec = Py_None)).
      - intros [= <-]. auto.
      - destruct (PyTuple_Check spec) as [items|]; [|discriminate].
        intros [= <-]. auto. }
    destruct (Z.of_nat k <? nargs) eqn:Hlt; simpl in Hca.
    + destruct (Hsplit None Hca) as (H1 & H2 & H3 & H4).
      repeat split; auto. exists spec. auto.
    + destruct (names !! Z.to_nat (Z.of_nat k - nargs)) as [kn|] eqn:Hkn;
        [|discriminate]. simpl in Hca.
      destruct (Hsplit _ Hca) as (H1 & H2 & H3 & H4).
      repeat split; auto. exists spec. auto.
Qed.

(** *** The counters of the wrapper over a sequence of requests *)

Lemma tally_nonneg (f : event (PyObject:=PyObject) -> bool) log :
  0 ≤ tally f log.
Proof. induction log as [|ev log IH]; simpl; [lia|]. destruct (f ev); lia. Qed.

Lemma serve_counts reqs : ∀ self self' log,
  serve self reqs = Some (self', log) ->
  total_calls self' = total_calls self + tally is_forwarded log ∧
  error_results self' = error_results self + tally is_failure log ∧
  invalid_args self ≤ invalid_args self'
    ≤ invalid_args self + tally is_forwarded log.
Proof.
  induction reqs as [|[argv len_args kwnames|arg] rest IH];
    intros self self' log; simpl.
  - intros [= <- <-]. simpl. lia.
  - destruct (statswrapper_vectorcall self argv len_args kwnames)
      as [out|] eqn:Hout; [|discriminate]. simpl.
    apply statswrapper_vectorcall_inv in Hout as [Hinv _].
    destruct out as [s1 e|s1 res];
      (destruct (serve s1 rest) as [[s2 log2]|] eqn:Hs; [|discriminate]);
      simpl; intros [= <- <-]; apply IH in Hs; simpl.
    + lia.
    + pose proof (tally_nonneg is_forwarded log2).
      destruct Hinv as (_ & Htc & Her & Hia & _). destruct res; lia.
  - unfold statswrapper__set_npos.
    destruct (PyLong_AsSsize_t arg) as [n|e];
      (destruct (serve _ rest) as [[s2 log2]|] eqn:Hs; [|discriminate]);
      simpl; intros [= <- <-]; apply IH in Hs; simpl in *; lia.
Qed.

(** X3.  On a wrapper fresh from the factory and after any sequence of
    calls and reconfigurations, [_get_counts] reports as [total_calls] the
    number of calls that reached the wrapped callable, as [error_results]
    the number of those in which it raised, and an [invalid_args] between
    zero and the first.  Calls stopped during classification and calls of
    [_set_npos] are counted in none of the three. *)
Theorem get_counts_after_requests argv len_args kwnames self reqs self' log :
  stats_wrapper_create argv len_args kwnames = Some (PyReturn self) ->
  serve self reqs = Some (self', log) ->
  ∃ invalid,
    statswrapper__get_counts self'
    = (tally is_forwarded log, tally is_failure log, invalid) ∧
    0 ≤ invalid ≤ tally is_forwarded log.
Proof.
  intros Hc Hs.
  apply stats_wrapper_create_inv in Hc as (Htc & Her & Hia & _).
  apply serve_counts in Hs as (H1 & H2 & H3).
  exists (invalid_args self'). unfold statswrapper__get_counts.
  rewrite H1, H2, Htc, Her. split; [reflexivity | lia].
Qed.

(** *** The boundary *)

(** X4.  The boundary set by [_set_npos] is the one the next call uses.
    With an integer [n] between [npos_only] and the number of declared
    parameters, [_set_npos] returns [None] without error, keeps the wrapper
    well-formed and touches neither the entries nor the counters; a call
    made afterwards is defined, and if it is delegated it is counted as
    invalid exactly when it has more than [n] positional arguments or a
    keyword name found in no entry, and entry [k] receives a positional
    value only for [k < n]. *)
Theorem set_npos_then_call self arg n argv len_args kwnames :
  well_formed self = true ->
  PyLong_AsSsize_t arg = inl n ->
  npos_only self ≤ n ≤ Py_SIZE self - 1 ->
  call_ok argv len_args kwnames = true ->
  headroom self (Z.of_nat (length argv)) = true ->
  let nargs := PyVectorcall_NARGS len_args in
  let names := default [] kwnames in
  ∃ self1 out,
    statswrapper__set_npos self arg = (self1, Some Py_None, None) ∧
    well_formed self1 = true ∧
    args self1 = args self ∧
    statswrapper__get_counts self1 = statswrapper__get_counts self ∧
    statswrapper_vectorcall self1 argv len_args kwnames = Some out ∧
    ∀ self' res, out = Delegated self' res ->
      invalid_args self' =
        invalid_args self +
        (if (n <? nargs)
            || negb (forallb (λ name, bool_decide
                       (is_Some (tracked_at (args self) (npos_only self) name)))
                       names)
         then 1 else 0) ∧
      ∀ k a, args self !! k = Some a ->
        ∃ a', args self' !! k = Some a' ∧
          classify_all a
            (positional_values argv (Z.min nargs n) k ++
             keyword_values (args self) (npos_only self) names
               (drop (Z.to_nat nargs) argv) k) = Some a'.
Proof.
  intros Hwf Hn Hr Hcall Hroom nargs names.
  destruct (set_npos_in_range self arg n Hn Hr) as [Hs Hw].
  specialize (Hw Hwf).
  destruct (statswrapper_vectorcall_defined (with_npos self n) argv len_args
              kwnames Hw Hcall Hroom) as (out & Hout & _).
  exists (with_npos self n), out.
  split; [exact Hs|]. split; [exact Hw|].
  split; [reflexivity|]. split; [reflexivity|]. split; [exact Hout|].
  intros self' res ->.
  destruct (statswrapper_vectorcall_slots _ _ _ _ _ _ Hout) as (Hsl & Hia & _).
  split; [exact Hia | exact Hsl].
Qed.

(** *** Memory safety of a call *)

(** X5.  On a well-formed wrapper a call is defined whatever the caller
    passes: too many positional arguments, unknown keyword names and
    failing comparisons lead to no access outside the arrays, and the
    wrapper is well-formed afterwards, whether the call was delegated or
    stopped. *)
Theorem call_stays_in_bounds self argv len_args kwnames :
  well_formed self = true ->
  call_ok argv len_args kwnames = true ->
  headroom self (Z.of_nat (length argv)) = true ->
  ∃ out,
    statswrapper_vectorcall self argv len_args kwnames = Some out ∧
    well_formed (match out with Aborted s _ | Delegated s _ => s end) = true.
Proof.
  intros Hwf Hcall Hroom.
  destruct (statswrapper_vectorcall_defined _ _ _ _ Hwf Hcall Hroom)
    as (out & Hout & _).
  exists out. split; [exact Hout|].
  eapply statswrapper_vectorcall_keeps_well_formed; eassumption.
Qed.

Lemma positional_loop_OK_bound n argv : ∀ i slots slots',
  0 ≤ i ->
  positional_loop n i slots argv = Some (slots', OK) ->
  n = 0%nat ∨ (Z.to_nat i + n ≤ length slots)%nat.
Proof.
  induction n as [|n IH]; intros i slots slots' Hi; simpl; [auto|].
  destruct (slots !! Z.to_nat i) as [a|] eqn:Ha; [|discriminate]. simpl.
  apply lookup_lt_Some in Ha.
  destruct (argv !! Z.to_nat i) as [x|]; [|discriminate]. simpl.
  destruct (handle_arg_stats a x) as [[a' [|e]]|]; try discriminate. simpl.
  intros Hl. assert (Hi1 : 0 ≤ i + 1) by lia.
  apply (IH _ _ _ Hi1) in Hl. rewrite length_insert in Hl. lia.
Qed.

(** X6.  The check on the number of positional arguments protects the
    array only as long as [npos] is within it.  With [npos] larger than
    the array (terminator included) and more positional arguments than the
    array has entries, the first loop runs past the end of [args]: the
    call never reaches the wrapped callable. *)
Theorem call_past_the_array self argv len_args kwnames :
  Z.of_nat (length (args self)) < npos self ->
  Z.of_nat (length (args self)) < PyVectorcall_NARGS len_args ->
  ∀ self' res,
    statswrapper_vectorcall self argv len_args kwnames
    ≠ Some (Delegated self' res).
Proof.
  intros Hnp Hn self' res Hout. unfold statswrapper_vectorcall in Hout.
  set (nargs := PyVectorcall_NARGS len_args) in *.
  assert (Hpos : ∀ invalid nv,
            Z.of_nat (length (args self)) < nv ->
            ('(slots1, st1) ← positional_loop (Z.to_nat nv) 0 (args self) argv;
             match st1 with
             | ERR e => Some (Aborted (with_args self slots1) e)
             | OK =>
                 '(slots2, invalid2, st2) ←
                   keyword_loop (default [] kwnames) 0 nargs (npos_only self)
                     slots1 argv invalid;
                 match st2 with
                 | ERR e => Some (Aborted (with_args self slots2) e)
                 | OK =>
                     tc ← ssize_incr (total_calls self);
                     ia ← ssize_add (invalid_args self) invalid2;
                     er ← (match PyObject_Vectorcall (wrapped self) argv
                                   len_args kwnames with
                           | PyRaise _ => ssize_incr (error_results self)
                           | PyReturn _ => Some (error_results self)
                           end);
                     Some (Delegated
                             {| ob_size := ob_size self; wrapped := wrapped self;
                                total_calls := tc; invalid_args := ia;
                                error_results := er; npos := npos self;
                                npos_only := npos_only self; args := slots2 |}
                             (PyObject_Vectorcall (wrapped self) argv
                                len_args kwnames))
                 end
             end) ≠ Some (Delegated self' res)).
  { intros invalid nv Hnv H0.
    destruct (positional_loop (Z.to_nat nv) 0 (args self) argv)
      as [[slots1 [|e]]|] eqn:Hp; try discriminate.
    assert (H00 : 0 ≤ 0) by lia.
    apply (positional_loop_OK_bound _ _ _ _ _ H00) in Hp. lia. }
  destruct (npos self <? nargs) eqn:Hlt.
  - exact (Hpos 1 (npos self) Hnp Hout).
  - exact (Hpos 0 nargs Hn Hout).
Qed.

(** *** The fast paths *)

Lemma alter_succ_room n (l : list Z) j :
  forallb (in_range n) l = true -> 0 < n ->
  ∀ c, l !! j = Some c -> ssize_incr c = Some (c + 1).
Proof.
  intros Hl Hn c Hc. eapply ssize_incr_in_range; [exact Hn|].
  eapply forallb_lookup; eassumption.
Qed.

(** X7.  An argument that is one of the known values of an entry, as an
    object, is counted at the first position it has among them, and no
    comparison takes part: whatever [PyObject_RichCompareBool] would
    answer or raise, [handle_arg_stats] returns [0]. *)
Theorem identical_value_is_counted a x known j :
  known_params a = Some known ->
  arginfo_ok a = true ->
  room 1 a = true ->
  first_index (λ k, bool_decide (k = x)) known 0 = Some j ->
  handle_arg_stats a x
  = Some (with_param_counts (with_count a (count a + 1))
            (alter Z.succ j (param_counts a)), OK).
Proof.
  intros Hk Hok Hroom Hj. unfold room in Hroom.
  apply andb_true_iff in Hroom as [Hc Hpc].
  unfold arginfo_ok in Hok. rewrite Hk in Hok. apply Nat.eqb_eq in Hok.
  unfold handle_arg_stats.
  rewrite (ssize_incr_in_range 1 _ ltac:(lia) Hc). simpl. rewrite Hk.
  destruct (identity_scan_first_index known x 0 0) as [Hid Hb].
  rewrite Hj in Hid. specialize (Hb j Hj). rewrite Hid.
  replace (0 + (Z.of_nat j - Z.of_nat 0) =? Z.of_nat (length known))
    with false by bool_lia_eq.
  replace (0 + (Z.of_nat j - Z.of_nat 0) =? Z.of_nat (length known))
    with false by bool_lia_eq.
  replace (Z.to_nat (0 + (Z.of_nat j - Z.of_nat 0))) with j by lia.
  destruct (param_counts a !! j) as [c|] eqn:Hcj.
  2:{ apply lookup_ge_None in Hcj. lia. }
  simpl. rewrite (alter_succ_room 1 _ _ Hpc ltac:(lia) c Hcj). simpl.
  rewrite (insert_succ_alter _ _ _ Hcj). reflexivity.
Qed.

(** X8.  When no comparison of a known value with the argument fails,
    [handle_arg_stats] does what the specification says: it adds one to
    the count of the entry and one to the per-value count of the first
    identical known value or, without any, of the first equal one; without
    match, or for an entry without known values, the per-value counts stay
    as they are. *)
Theorem handle_arg_stats_refines_spec a x :
  arginfo_ok a = true ->
  room 1 a = true ->
  (∀ known, known_params a = Some known ->
     forallb (λ k, negb (cmp_failed (PyObject_RichCompareBool k x Py_EQ)))
       known = true) ->
  handle_arg_stats a x = Some (classify_spec a x, OK).
Proof.
  intros Hok Hroom Hcmp.
  destruct (handle_arg_stats_defined a x 1 ltac:(lia) Hok Hroom)
    as (a' & st & Hh & _).
  destruct (handle_arg_stats_classify_spec a x a' st) as [-> ->];
    [|exact Hh|exact Hh].
  destruct (known_params a) as [known|]; [|exact I]. apply Hcmp. reflexivity.
Qed.

(** X9.  A keyword name that is, as an object, the stored name of an entry
    is found at the first such entry from [first] on without any
    comparison of names: whatever [PyObject_RichCompareBool] would answer
    or raise, the look-up does not fail. *)
Theorem identical_name_is_found slots first name p :
  0 ≤ first ->
  keyword_run (drop (Z.to_nat first) slots) = true ->
  first_index (stored_name_is name) (drop (Z.to_nat first) slots)
    (Z.to_nat first) = Some p ->
  find_arginfo slots first name = Some (inl p) ∧
  tracked_at slots first name = Some p ∧
  first ≤ Z.of_nat p.
Proof.
  intros Hf Hrun Hp.
  pose proof (identity_walk_first_index _ name (Z.to_nat first) Hrun) as Hid.
  rewrite Hp in Hid. destruct Hid as (Hw & Hle & a & Ha & Hn).
  rewrite lookup_drop in Ha.
  replace (Z.to_nat first + (p - Z.to_nat first))%nat with p in Ha by lia.
  assert (Hfind : find_arginfo slots first name = Some (inl p)).
  { unfold find_arginfo. replace (first <? 0) with false by bool_lia.
    rewrite Hw. simpl. rewrite Ha. simpl.
    unfold named in Hn. apply bool_decide_eq_true in Hn as [k Hk].
    rewrite Hk. reflexivity. }
  split; [exact Hfind|]. split; [|lia].
  unfold tracked_at. rewrite Hfind, Ha. unfold named in Hn. rewrite Hn.
  reflexivity.
Qed.

(** *** What never changes, and what the counters of an entry satisfy *)

Lemma step_fixed self self' :
  step self self' ->
  Forall2 grows (args self) (args self') ∧
  npos_only self' = npos_only self ∧ wrapped self' = wrapped self ∧
  ob_size self' = ob_size self.
Proof.
  intros [s argv len_args kwnames s' res Hc
         |s argv len_args kwnames s' e Hc
         |s arg s' ret err Hs].
  - apply statswrapper_vectorcall_inv in Hc as (_ & Hg & Hw & _ & Hno & Hsz).
    auto.
  - apply statswrapper_vectorcall_inv in Hc as (_ & Hg & Hw & _ & Hno & Hsz).
    auto.
  - unfold statswrapper__set_npos in Hs.
    destruct (PyLong_AsSsize_t arg); injection Hs as <- _ _; simpl;
      (split; [reflexivity | auto]).
Qed.

(** X10.  The arity and the shape of a wrapper are fixed for its lifetime:
    whatever calls and reconfigurations are made, the array keeps its
    length, every entry its name, its known values and the length of its
    per-value counts, and the wrapper its callable and [npos_only]; so
    [_get_param_stats] reports the same names and known values in the same
    order. *)
Theorem shape_is_fixed self self' :
  rtc step self self' ->
  shape <$> args self' = shape <$> args self ∧
  npos_only self' = npos_only self ∧
  wrapped self' = wrapped self ∧
  Py_SIZE self' = Py_SIZE self ∧
  (λ r, (r.1.1.1, r.1.2)) <$> statswrapper__get_param_stats self'
  = (λ r, (r.1.1.1, r.1.2)) <$> statswrapper__get_param_stats self.
Proof.
  intros Hs.
  assert (H0 : Forall2 grows (args self) (args self') ∧
               npos_only self' = npos_only self ∧
               wrapped self' = wrapped self ∧ ob_size self' = ob_size self).
  { induction Hs as [s|s1 s2 s3 H12 _ IH].
    - split; [reflexivity | auto].
    - apply step_fixed in H12 as (Hg & H1 & H2 & H3).
      destruct IH as (Hg' & H1' & H2' & H3').
      split; [etransitivity; eassumption|]. repeat split; congruence. }
  destruct H0 as (Hg & H1 & H2 & H3).
  pose proof (grows_shapes _ _ Hg) as Hsh.
  repeat split; auto.
  unfold statswrapper__get_param_stats, Py_SIZE. rewrite H3.
  rewrite <- !list_fmap_compose.
  assert (Hf : ∀ l : list (arginfo (PyObject:=PyObject)),
            ((λ r : option PyObject * Z * option (list PyObject)
                    * option (list Z), (r.1.1.1, r.1.2))
             ∘ (λ a, (kwname a, count a, known_params a,
                      match known_params a with
                      | None => None
                      | Some _ => Some (param_counts a)
                      end))) <$> l
            = (λ s, (s.1.1, s.1.2)) <$> (shape <$> l)).
  { intros l. rewrite <- list_fmap_compose. apply list_fmap_ext.
    intros i a _. reflexivity. }
  rewrite !Hf, !fmap_take, Hsh. reflexivity.
Qed.

Lemma sum_counts_insert (l : list Z) j c :
  l !! j = Some c -> sum_counts (<[j:=c + 1]> l) = sum_counts l + 1.
Proof.
  revert j. induction l as [|y l IH]; intros [|j]; simpl; try discriminate.
  - intros [= ->]. unfold sum_counts. simpl. lia.
  - intros Hj. unfold sum_counts in *. simpl. rewrite (IH _ Hj). lia.
Qed.

Lemma handle_arg_stats_consistent a x a' st :
  counts_consistent a ->
  handle_arg_stats a x = Some (a', st) ->
  counts_consistent a'.
Proof.
  intros (Hc & Hp & Hs) H0. unfold handle_arg_stats in H0.
  destruct (ssize_incr (count a)) as [c|] eqn:Hi; [|discriminate].
  apply ssize_incr_Some in Hi as [-> _]. simpl in H0.
  assert (Hbase : counts_consistent (with_count a (count a + 1))).
  { unfold counts_consistent. simpl. repeat split; auto; lia. }
  assert (Hupd : ∀ j,
            (pc ← param_counts a !! j;
             pc' ← ssize_incr pc;
             Some (with_param_counts (with_count a (count a + 1))
                     (<[j := pc']> (param_counts a)), OK))
            = Some (a', st) -> counts_consistent a').
  { intros j H1.
    destruct (param_counts a !! j) as [pc|] eqn:Hpc; [|discriminate].
    simpl in H1.
    destruct (ssize_incr pc) as [pc'|] eqn:Hpc'; [|discriminate].
    apply ssize_incr_Some in Hpc' as [-> _]. simpl in H1.
    injection H1 as <- <-. unfold counts_consistent. simpl.
    pose proof (Forall_lookup_1 _ _ _ _ Hp Hpc) as Hpos. simpl in Hpos.
    split; [lia|]. split.
    - apply Forall_insert; [exact Hp | lia].
    - rewrite (sum_counts_insert _ _ _ Hpc). lia. }
  destruct (known_params a) as [known|].
  2:{ injection H0 as <- <-. exact Hbase. }
  cbv zeta in H0.
  destruct (identity_scan known x 0 =? Z.of_nat (length known)) eqn:Hid.
  - destruct (equality_scan known x 0) as [j|e].
    + destruct (j =? Z.of_nat (length known)).
      * injection H0 as <- <-. exact Hbase.
      * exact (Hupd _ H0).
    + injection H0 as <- <-. exact Hbase.
  - simpl in H0. rewrite Hid in H0. exact (Hupd _ H0).
Qed.

Lemma positional_loop_consistent n argv : ∀ i slots slots' st,
  positional_loop n i slots argv = Some (slots', st) ->
  Forall counts_consistent slots -> Forall counts_consistent slots'.
Proof.
  induction n as [|n IH]; intros i slots slots' st; simpl.
  - intros [= <- <-]. auto.
  - destruct (slots !! Z.to_nat i) as [a|] eqn:Ha; [|discriminate]. simpl.
    destruct (argv !! Z.to_nat i) as [x|]; [|discriminate]. simpl.
    destruct (handle_arg_stats a x) as [[a' st']|] eqn:Hh; [|discriminate].
    simpl. intros H0 Hall.
    assert (Hall' : Forall counts_consistent (<[Z.to_nat i:=a']> slots)).
    { apply Forall_insert; [exact Hall|].
      eapply handle_arg_stats_consistent; [|exact Hh].
      eapply Forall_lookup_1; eassumption. }
    destruct st'.
    + eapply IH; eassumption.
    + injection H0 as <- <-. exact Hall'.
Qed.

Lemma keyword_loop_consistent names argv nargs first :
  ∀ i slots invalid slots' invalid' st,
  keyword_loop names i nargs first slots argv invalid
    = Some (slots', invalid', st) ->
  Forall counts_consistent slots -> Forall counts_consistent slots'.
Proof.
  induction names as [|name rest IH];
    intros i slots invalid slots' invalid' st; simpl.
  - intros [= <- <- <-]. auto.
  - destruct (if nargs + i <? 0 then None else argv !! Z.to_nat (nargs + i))
      as [arg|]; [|discriminate]. simpl.
    destruct (find_arginfo slots first name) as [[p|e]|]; try discriminate;
      simpl.
    2:{ intros [= <- <- <-]. auto. }
    destruct (slots !! p) as [a|] eqn:Ha; [|discriminate]. simpl.
    destruct (kwname a).
    + destruct (handle_arg_stats a arg) as [[a' st']|] eqn:Hh; [|discriminate].
      simpl. intros H0 Hall.
      assert (Hall' : Forall counts_consistent (<[p:=a']> slots)).
      { apply Forall_insert; [exact Hall|].
        eapply handle_arg_stats_consistent; [|exact Hh].
        eapply Forall_lookup_1; eassumption. }
      destruct st'.
      * eapply IH; eassumption.
      * injection H0 as <- <- <-. exact Hall'.
    + apply IH.
Qed.

Lemma step_consistent self self' :
  step self self' ->
  Forall counts_consistent (args self) ->
  Forall counts_consistent (args self').
Proof.
  intros [s argv len_args kwnames s' res Hc
         |s argv len_args kwnames s' e Hc
         |s arg s' ret err Hs] Hall.
  - unfold statswrapper_vectorcall in Hc.
    destruct (if npos s <? PyVectorcall_NARGS len_args
              then (1, npos s) else (0, PyVectorcall_NARGS len_args))
      as [invalid nv].
    destruct (positional_loop (Z.to_nat nv) 0 (args s) argv)
      as [[slots1 [|e1]]|] eqn:Hp; try discriminate. simpl in Hc.
    apply positional_loop_consistent in Hp; [|exact Hall].
    destruct (keyword_loop _ 0 _ _ slots1 argv invalid)
      as [[[slots2 inv2] [|e2]]|] eqn:Hk; try discriminate. simpl in Hc.
    apply keyword_loop_consistent in Hk; [|exact Hp].
    destruct (ssize_incr (total_calls s)); [|discriminate]. simpl in Hc.
    destruct (ssize_add (invalid_args s) inv2); [|discriminate]. simpl in Hc.
    destruct (PyObject_Vectorcall (wrapped s) argv len_args kwnames).
    + simpl in Hc. injection Hc as <- _. exact Hk.
    + destruct (ssize_incr (error_results s)); [|discriminate].
      simpl in Hc. injection Hc as <- _. exact Hk.
  - unfold statswrapper_vectorcall in Hc.
    destruct (if npos s <? PyVectorcall_NARGS len_args
              then (1, npos s) else (0, PyVectorcall_NARGS len_args))
      as [invalid nv].
    destruct (positional_loop (Z.to_nat nv) 0 (args s) argv)
      as [[slots1 [|e1]]|] eqn:Hp; try discriminate; simpl in Hc.
    2:{ injection Hc as <- _. simpl.
        eapply positional_loop_consistent; eassumption. }
    apply positional_loop_consistent in Hp; [|exact Hall].
    destruct (keyword_loop _ 0 _ _ slots1 argv invalid)
      as [[[slots2 inv2] [|e2]]|] eqn:Hk; try discriminate; simpl in Hc.
    + destruct (ssize_incr (total_calls s)); [|discriminate]. simpl in Hc.
      destruct (ssize_add (invalid_args s) inv2); [|discriminate]. simpl in Hc.
      destruct (PyObject_Vectorcall (wrapped s) argv len_args kwnames);
        simpl in Hc; [discriminate|].
      destruct (ssize_incr (error_results s)); discriminate.
    + injection Hc as <- _. simpl.
      eapply keyword_loop_consistent; eassumption.
  - unfold statswrapper__set_npos in Hs.
    destruct (PyLong_AsSsize_t arg); injection Hs as <- _ _; exact Hall.
Qed.

Lemma create_loop_consistent n nargs specs names : ∀ i l,
  create_loop n i nargs specs names = Some (inl l) ->
  Forall counts_consistent l.
Proof.
  induction n as [|n IH]; intros i l; simpl.
  - intros [= <-]. constructor.
  - destruct (specs !! Z.to_nat i) as [spec|]; [|discriminate]. simpl.
    destruct (create_arginfo nargs i spec names) as [[a|e]|] eqn:Hc;
      try discriminate. simpl.
    destruct (create_loop n (i + 1) nargs specs names) as [[l'|e]|] eqn:Hl;
      try discriminate. simpl. intros [= <-].
    constructor; [|eapply IH, Hl].
    unfold create_arginfo in Hc.
    destruct (if i <? nargs then Some None
              else k ← names !! Z.to_nat (i - nargs);
                   Some (Some (PyUnicode_InternInPlace k))) as [nm|];
      [|discriminate]. simpl in Hc.
    destruct (decide (spec = Py_None)).
    + injection Hc as <-. unfold counts_consistent, sum_counts. simpl.
      repeat split; try lia. constructor.
    + destruct (PyTuple_Check spec) as [items|]; [|discriminate].
      injection Hc as <-. unfold counts_consistent. simpl.
      split; [lia|]. split.
      * apply Forall_replicate. lia.
      * unfold sum_counts. induction (length items); simpl; lia.
Qed.

(** X11.  In every state reached from construction by calls and
    reconfigurations, the counters of every entry fit together: the count
    and the per-value counts are not negative, there are as many
    per-value counts as known values, and the per-value counts add up to
    at most the count (each classified value adds one to the count and one
    to at most one per-value count). *)
Theorem entries_stay_consistent self :
  reachable self ->
  Forall (λ a, counts_consistent a ∧ arginfo_ok a = true) (args self).
Proof.
  intros Hr.
  assert (H1 : Forall counts_consistent (args self)).
  { induction Hr as [argv len_args kwnames self Hc|self self' _ IH Hs].
    - unfold stats_wrapper_create in Hc.
      destruct (PyVectorcall_NARGS len_args <? 1); [discriminate|].
      destruct (argv !! 0%nat); [|discriminate]. simpl in Hc.
      destruct (create_loop _ 0 _ (drop 1 argv) (default [] kwnames))
        as [[slots|e]|] eqn:Hl; try discriminate. simpl in Hc.
      injection Hc as <-. simpl. apply Forall_app. split.
      + eapply create_loop_consistent, Hl.
      + constructor; [|constructor].
        unfold counts_consistent, sum_counts. simpl.
        repeat split; try lia. constructor.
    - eapply step_consistent; eassumption. }
  assert (H2 : forallb arginfo_ok (args self) = true).
  { clear H1.
    induction Hr as [argv len_args kwnames self Hc|self self' _ IH Hs].
    - apply stats_wrapper_create_inv in Hc as (_ & _ & _ & _ & _ & _ & Hwf).
      apply well_formed_inv in Hwf. tauto.
    - apply step_fixed in Hs as [Hg _].
      rewrite (forallb_grows arginfo_ok _ _ arginfo_ok_shape Hg).
      exact IH. }
  apply forallb_Forall in H2.
  apply Forall_and. split; assumption.
Qed.

(** *** The effect of a delegated call on each entry *)

(** X12.  A call that reaches the wrapped callable changes only the
    entries it classifies into.  The count of entry [k] grows by one if [k]
    is below both the number of positional arguments and [npos], and by
    one for each keyword argument whose name is found in entry [k]; an
    entry that receives no value, the terminator among them on a
    well-formed wrapper, is left exactly as it was. *)
Theorem delegated_call_frame self argv len_args kwnames self' res :
  statswrapper_vectorcall self argv len_args kwnames
    = Some (Delegated self' res) ->
  let nargs := PyVectorcall_NARGS len_args in
  ∀ k a, args self !! k = Some a ->
    let received :=
      positional_values argv (Z.min nargs (npos self)) k ++
      keyword_values (args self) (npos_only self) (default [] kwnames)
        (drop (Z.to_nat nargs) argv) k in
    ∃ a', args self' !! k = Some a' ∧
          count a' = count a + Z.of_nat (length received) ∧
          (length (positional_values argv (Z.min nargs (npos self)) k) ≤ 1)%nat ∧
          (received = [] -> a' = a).
Proof.
  intros Hout nargs k a Ha received.
  destruct (statswrapper_vectorcall_slots _ _ _ _ _ _ Hout) as (Hs & _ & _).
  destruct (Hs k a Ha) as (a' & Ha' & Hc). fold nargs in Hc. fold received in Hc.
  exists a'. split; [exact Ha'|].
  pose proof (classify_all_grows _ _ _ Hc) as [_ Hcnt].
  split; [exact Hcnt|]. split.
  - unfold positional_values.
    destruct (Z.of_nat k <? Z.min nargs (npos self)); [|simpl; lia].
    destruct (argv !! k); simpl; lia.
  - intros Hnil. rewrite Hnil in Hc. simpl in Hc. congruence.
Qed.

(** *** The histogram *)

Lemma handle_arg_stats_match_index a x a' :
  handle_arg_stats a x = Some (a', OK) ->
  kwname a' = kwname a ∧ known_params a' = known_params a ∧
  count a' = count a + 1 ∧
  param_counts a' =
    match known_params a with
    | None => param_counts a
    | Some known =>
        match match_index known x with
        | Some j => alter Z.succ j (param_counts a)
        | None => param_counts a
        end
    end.
Proof.
  intros H0. unfold handle_arg_stats in H0.
  destruct (ssize_incr (count a)) as [c|] eqn:Hi; [|discriminate].
  apply ssize_incr_Some in Hi as [-> _]. simpl in H0.
  destruct (known_params a) as [known|] eqn:Hk.
  2:{ injection H0 as <-. simpl. rewrite Hk. auto. }
  unfold match_index. cbv zeta in H0 |- *.
  assert (Hupd : ∀ j,
            (pc ← param_counts a !! Z.to_nat j;
             pc' ← ssize_incr pc;
             Some (with_param_counts (with_count a (count a + 1))
                     (<[Z.to_nat j := pc']> (param_counts a)), OK))
            = Some (a', OK) ->
            kwname a' = kwname a ∧ known_params a' = Some known ∧
            count a' = count a + 1 ∧
            param_counts a' = alter Z.succ (Z.to_nat j) (param_counts a)).
  { intros j H1.
    destruct (param_counts a !! Z.to_nat j) as [pc|] eqn:Hpc; [|discriminate].
    simpl in H1.
    destruct (ssize_incr pc) as [pc'|] eqn:Hpc'; [|discriminate].
    apply ssize_incr_Some in Hpc' as [-> _]. simpl in H1.
    injection H1 as <-. simpl. rewrite Hk.
    rewrite (insert_succ_alter _ _ _ Hpc). auto. }
  destruct (identity_scan known x 0 =? Z.of_nat (length known)) eqn:Hid.
  - destruct (equality_scan known x 0) as [j|e]; [|discriminate].
    destruct (j =? Z.of_nat (length known)).
    + injection H0 as <-. simpl. rewrite Hk. auto.
    + exact (Hupd _ H0).
  - simpl in H0. rewrite Hid in H0 |- *. exact (Hupd _ H0).
Qed.

Lemma lookup_alter_succ (l : list Z) i j c :
  l !! j = Some c ->
  alter Z.succ i l !! j = Some (c + (if bool_decide (i = j) then 1 else 0)).
Proof.
  intros Hj. destruct (decide (i = j)) as [->|Hne].
  - rewrite bool_decide_eq_true_2 by reflexivity.
    rewrite list_lookup_alter_eq, Hj. reflexivity.
  - rewrite bool_decide_eq_false_2 by exact Hne.
    rewrite list_lookup_alter_ne by exact Hne. rewrite Hj. f_equal. lia.
Qed.

Lemma classify_all_histogram xs : ∀ a a',
  classify_all a xs = Some a' ->
  kwname a' = kwname a ∧ known_params a' = known_params a ∧
  count a' = count a + Z.of_nat (length xs) ∧
  length (param_counts a') = length (param_counts a) ∧
  match known_params a with
  | None => param_counts a' = param_counts a
  | Some known =>
      ∀ j c, param_counts a !! j = Some c ->
             param_counts a' !! j = Some (c + hits known xs j)
  end.
Proof.
  induction xs as [|x xs IH]; intros a a'; simpl.
  - intros [= <-]. repeat split; try lia.
    destruct (known_params a); [|reflexivity].
    intros j c Hj. rewrite Hj. f_equal. lia.
  - destruct (handle_arg_stats a x) as [[a1 [|e]]|] eqn:Hh; try discriminate.
    intros Hc. apply IH in Hc as (H1 & H2 & H3 & H4 & H5).
    apply handle_arg_stats_match_index in Hh as (G1 & G2 & G3 & G4).
    rewrite G2 in H5.
    split; [congruence|]. split; [congruence|]. split; [lia|].
    destruct (known_params a) as [known|].
    + split.
      { rewrite H4, G4. destruct (match_index known x);
          [apply length_alter | reflexivity]. }
      intros j c Hj.
      destruct (match_index known x) as [i|] eqn:Hm.
      * rewrite G4 in H5.
        rewrite (H5 j _ (lookup_alter_succ _ i j c Hj)). f_equal.
        destruct (decide (i = j)) as [->|Hne].
        -- rewrite !bool_decide_eq_true_2 by reflexivity. lia.
        -- rewrite !bool_decide_eq_false_2 by congruence. lia.
      * rewrite G4 in H5. rewrite (H5 j c Hj). f_equal.
    + split; congruence.
Qed.

(** X13.  The per-value counts are a histogram of the values an entry has
    received.  After a delegated call, the count at index [j] of entry [k]
    has grown by the number of values received by the entry, positionally
    or by keyword, for which the two loops of [handle_arg_stats] stop at
    [j] ([match_index]); where no comparison with the value fails, that is
    the index of the first identical known value, and of the first equal
    one when none is identical. *)
Theorem delegated_call_histogram self argv len_args kwnames self' res :
  statswrapper_vectorcall self argv len_args kwnames
    = Some (Delegated self' res) ->
  let nargs := PyVectorcall_NARGS len_args in
  (∀ k a known, args self !! k = Some a -> known_params a = Some known ->
     let received :=
       positional_values argv (Z.min nargs (npos self)) k ++
       keyword_values (args self) (npos_only self) (default [] kwnames)
         (drop (Z.to_nat nargs) argv) k in
     ∃ a', args self' !! k = Some a' ∧
       ∀ j c, param_counts a !! j = Some c ->
              param_counts a' !! j = Some (c + hits known received j)) ∧
  (∀ known x,
     forallb (λ k, negb (cmp_failed (PyObject_RichCompareBool k x Py_EQ)))
       known = true ->
     match_index known x = match_index_spec known x).
Proof.
  intros Hout nargs. split.
  - intros k a known Ha Hk received.
    destruct (statswrapper_vectorcall_slots _ _ _ _ _ _ Hout) as (Hs & _ & _).
    destruct (Hs k a Ha) as (a' & Ha' & Hc).
    exists a'. split; [exact Ha'|].
    apply classify_all_histogram in Hc as (_ & _ & _ & _ & Hh).
    rewrite Hk in Hh. exact Hh.
  - intros known x Hb. unfold match_index, match_index_spec.
    destruct (identity_scan_first_index known x 0 0) as [Hid Hidb].
    destruct (equality_scan_first_index known x 0 0 Hb) as [Heq Heqb].
    rewrite Hid, Heq. clear Hid Heq. cbv zeta.
    destruct (first_index (λ k, bool_decide (k = x)) known 0) as [q|] eqn:Hq.
    + specialize (Hidb q eq_refl).
      replace (0 + (Z.of_nat q - Z.of_nat 0) =? Z.of_nat (length known))
        with false by bool_lia_eq.
      replace (0 + (Z.of_nat q - Z.of_nat 0) =? Z.of_nat (length known))
        with false by bool_lia_eq.
      f_equal. lia.
    + replace (0 + Z.of_nat (length known) =? Z.of_nat (length known))
        with true by bool_lia_eq.
      destruct (first_index
                  (λ k, bool_decide (PyObject_RichCompareBool k x Py_EQ = CmpTrue))
                  known 0) as [q|] eqn:Hq'.
      * specialize (Heqb q eq_refl).
        replace (0 + (Z.of_nat q - Z.of_nat 0) =? Z.of_nat (length known))
          with false by bool_lia_eq.
        f_equal. lia.
      * replace (0 + Z.of_nat (length known) =? Z.of_nat (length known))
          with true by bool_lia_eq.
        reflexivity.
Qed.

(** *** Calls in either order *)




End Theory.

(** * Calls of a callable with a state of its own *)

Section Callable.

Context {PyObject : Type} `{!PyRuntime PyObject}.

Implicit Types (self : StatsWrapperObject (PyObject:=PyObject)).
Implicit Types (argv : list PyObject).
Implicit Types
  (call : PyObject -> list PyObject -> Z -> option (list PyObject)
          -> PyResult PyObject).

(** Classification does not look at the callable. *)
Lemma classify_all_with_callable call a xs :
  @classify_all PyObject (with_callable call) a xs = classify_all a xs.
Proof. reflexivity. Qed.

Lemma tracked_at_with_callable call slots first name :
  @tracked_at PyObject (with_callable call) slots first name
  = tracked_at slots first name.
Proof. reflexivity. Qed.

Lemma keyword_values_with_callable call slots first names vals k :
  @keyword_values PyObject (with_callable call) slots first names vals k
  = keyword_values slots first names vals k.
Proof. reflexivity. Qed.




End Callable.

(** * The wrapper at work on the small interpreter *)

Lemma demo_created :
  stats_wrapper_create
    [OFunc 0; OTuple 10 [VStr 1 "a"; VStr 2 "b"];
     OTuple 11 [VStr 4 "x"; VStr 5 "y"]]
    2 (Some [str_name])
  = Some (PyReturn demo).
Proof. vm_compute. reflexivity. Qed.

Lemma demo_reachable : reachable demo.
Proof. eapply reachable_create, demo_created. Qed.

(** The scenario of the specification: three calls, each with one
    positional value and the keyword [name]. *)
Example end_to_end_scenario :
  ∃ s1 s2 s3 r1 r2 r3,
    statswrapper_vectorcall demo [OValue (VStr 21 "a"); str_y] 1
      (Some [str_name]) = Some (Delegated s1 r1) ∧
    statswrapper_vectorcall s1 [OValue (VStr 22 "b"); str_x] 1
      (Some [str_name]) = Some (Delegated s2 r2) ∧
    statswrapper_vectorcall s2 [OValue (VStr 23 "z"); str_y] 1
      (Some [str_name]) = Some (Delegated s3 r3) ∧
    statswrapper__get_counts s3 = (3, 0, 0) ∧
    statswrapper__get_param_stats s3 =
      [ (None, 3, Some [str_a; str_b], Some [1; 1]);
        (Some str_name, 3, Some [str_x; str_y], Some [1; 2]) ].
Proof. do 6 eexists. repeat split; vm_compute; reflexivity. Qed.

(** The histogram of the specification: known values [("a", "b")], the
    values ["a"] three times and ["b"] once, then the unknown ["c"]. *)
Example known_values_histogram :
  let a0 := {| kwname := None; known_params := Some [str_a; str_b];
               count := 0; param_counts := [0; 0] |} in
  ∃ a4 a5,
    classify_all a0 [str_a; OValue (VStr 21 "a"); str_a; OValue (VStr 22 "b")]
      = Some a4 ∧
    param_counts a4 = [3; 1] ∧
    handle_arg_stats a4 (OValue (VStr 23 "c")) = Some (a5, OK) ∧
    count a5 = 5 ∧ param_counts a5 = [3; 1].
Proof. do 2 eexists. repeat split; vm_compute; reflexivity. Qed.

(** ** C1 *)

(** [_set_npos(5)] on the wrapper of two parameters. *)
Lemma set_npos_out_of_range_overwrites_witness :
  Py_SIZE demo - 1 < 5 ∧
  statswrapper__set_npos demo (OValue (VInt 5))
  = (with_npos demo 5, Some Py_None, Some PyExc_ValueError).
Proof.
  split; [vm_compute; reflexivity|].
  apply (set_npos_out_of_range_overwrites demo (OValue (VInt 5)) 5).
  - reflexivity.
  - right. vm_compute. reflexivity.
Defined.

(** ** C2 *)



(** ** C3 *)


(** The entry of the keyword [name] in the wrapper, and the failing
    comparison of its stored name with a keyword name that raises [e]. *)
Lemma demo_name_comparison_fails e :
  name_comparison_fails (args demo) (npos_only demo) (name_raising e) e.
Proof.
  split; [reflexivity|].
  exists [],
    {| kwname := Some str_name; known_params := Some [str_x; str_y];
       count := 0; param_counts := [0; 0] |},
    str_name, [terminator].
  split; [reflexivity|]. split; [constructor|]. split; reflexivity.
Defined.


(** ** C4 *)

(** C4 as stated fails: the wrapper raises [RecursionError] on arguments
    for which the wrapped callable returns its first argument. *)
Lemma wrapper_raises_where_wrapped_returns :
  ∃ self',
    statswrapper_vectorcall demo [str_a; array_raising PyExc_RecursionError] 2
      None
      = Some (Aborted self' PyExc_RecursionError) ∧
    PyObject_Vectorcall (wrapped demo)
      [str_a; array_raising PyExc_RecursionError] 2 None
      = PyReturn str_a.
Proof. eexists. split; vm_compute; reflexivity. Qed.

(** A call without failing comparison returns what the callable returns. *)
Lemma delegation_is_transparent_witness :
  (well_formed demo = true ∧
   call_ok [str_b; str_x] 2 None = true ∧
   headroom demo 2 = true) ∧
  ∃ self',
    statswrapper_vectorcall demo [str_b; str_x] 2 None
    = Some (Delegated self' (PyReturn str_b)).
Proof.
  split; [repeat split; reflexivity|].
  exact (proj2 (proj2 (delegation_is_transparent demo [str_b; str_x] 2 None
                         eq_refl eq_refl eq_refl)) eq_refl eq_refl).
Defined.

(** ** C5 *)

(** C5, as the code has it.  The specification keeps [npos] between
    [positional_only_count] and [total_slot_count] in every reachable
    state.  After [_set_npos(5)] on a wrapper with two declared parameters,
    a state is reached in which [npos] is [5]: the range check of
    [statswrapper__set_npos] does not stop the assignment. *)
Theorem npos_escapes_its_bounds :
  ∃ self : StatsWrapperObject (PyObject:=object),
    reachable self ∧
    npos self = 5 ∧ Py_SIZE self - 1 = 2 ∧
    ¬ (npos_only self ≤ npos self ≤ Py_SIZE self - 1).
Proof.
  exists (with_npos demo 5). split.
  - eapply reachable_step; [exact demo_reachable|].
    eapply (step_set_npos demo (OValue (VInt 5))). reflexivity.
  - split; [reflexivity|]. split; [reflexivity|]. vm_compute.
    intros [_ H]. apply H. reflexivity.
Qed.

(** ** C6 *)

(** C6, as the code has it.  The specification leaves the per-value counts
    unchanged when a value matches no known value.  An array-like argument
    is neither identical nor equal to ["a"] or ["b"]: the comparison with
    ["a"] raises [ValueError].  [handle_arg_stats] clears the error and
    then takes the [-1] of the comparison for a match: the count of ["a"]
    goes from [0] to [1]. *)
Theorem failed_comparison_counted_as_match :
  let a0 := {| kwname := None; known_params := Some [str_a; str_b];
               count := 0; param_counts := [0; 0] |} in
  match_index_spec [str_a; str_b] (array_raising PyExc_ValueError) = None ∧
  handle_arg_stats a0 (array_raising PyExc_ValueError)
  = Some ({| kwname := None; known_params := Some [str_a; str_b];
             count := 1; param_counts := [1; 0] |}, OK).
Proof. split; vm_compute; reflexivity. Qed.

(** ** C7 *)

(** C7 as stated fails: three positional arguments for [npos = 2], the
    first one meets a fatal comparison; the call is not delegated and
    [invalid_args] is not incremented. *)
Lemma excess_positional_call_aborted :
  npos demo < PyVectorcall_NARGS 3 ∧
  ∃ self',
    statswrapper_vectorcall demo
      [array_raising PyExc_MemoryError; str_x; str_y] 3 None
      = Some (Aborted self' PyExc_MemoryError) ∧
    invalid_args self' = invalid_args demo ∧
    total_calls self' = total_calls demo.
Proof. split; [vm_compute; reflexivity|]. eexists. repeat split. Qed.

(** Three positional arguments for [npos = 2], none failing: the third is
    counted nowhere. *)
Lemma excess_positional_arguments_witness :
  let argv := [str_a; str_x; str_y] in
  (well_formed demo = true ∧
   call_ok argv 3 None = true ∧
   headroom demo 3 = true ∧
   npos demo < PyVectorcall_NARGS 3) ∧
  ∃ self',
    statswrapper_vectorcall demo argv 3 None
    = Some (Delegated self' (PyReturn str_a)) ∧
    invalid_args self' = invalid_args demo + 1 ∧
    total_calls self' = total_calls demo + 1 ∧
    count <$> args self' = [1; 1; 0].
Proof.
  intros argv.
  assert (Hh : well_formed demo = true ∧
               call_ok argv 3 None = true ∧
               headroom demo 3 = true ∧
               npos demo < PyVectorcall_NARGS 3)
    by (repeat split; reflexivity).
  split; [exact Hh|]. destruct Hh as (H1 & H2 & H3 & H4).
  destruct (excess_positional_arguments demo argv 3 None H1 H2 H3 H4)
    as (Hdel & _ & Hdone).
  destruct (Hdone eq_refl eq_refl) as [self' Hcall].
  destruct (Hdel self' _ Hcall) as (_ & Hia & Htc & _).
  exists self'. split; [exact Hcall|]. split; [exact Hia|]. split; [exact Htc|].
  vm_compute in Hcall. injection Hcall as <-. reflexivity.
Defined.

(** ** C8 *)

(** C8 as stated fails: a keyword name found in no entry, whose comparison
    with the stored name raises; the call is neither forwarded nor counted
    as invalid. *)
Lemma unmatched_keyword_not_forwarded :
  locate_spec (args demo) (npos_only demo) (name_raising PyExc_TypeError)
    = None ∧
  statswrapper_vectorcall demo [str_y] 0
    (Some [name_raising PyExc_TypeError])
  = Some (Aborted demo PyExc_TypeError).
Proof. split; vm_compute; reflexivity. Qed.

(** One name found by equality (another object with the same content),
    one name found in no entry; then a name whose comparison with the
    stored name raises. *)
Lemma keyword_arguments_lookup_witness :
  let argv := [str_a; str_y; str_x] in
  let kwnames := Some [OValue (VStr 16 "name"); OValue (VStr 17 "other")] in
  let kwfail := Some [name_raising PyExc_TypeError] in
  ((well_formed demo = true ∧
    call_ok argv 1 kwnames = true ∧
    headroom demo 3 = true) ∧
   ∃ self',
     statswrapper_vectorcall demo argv 1 kwnames
     = Some (Delegated self' (PyReturn str_a)) ∧
     tracked_at (args demo) (npos_only demo) (OValue (VStr 16 "name"))
       = Some 1%nat ∧
     tracked_at (args demo) (npos_only demo) (OValue (VStr 17 "other")) = None ∧
     invalid_args self' = invalid_args demo + 1) ∧
  ((call_ok [str_y] 0 kwfail = true ∧
    headroom demo 1 = true ∧
    name_comparison_fails (args demo) (npos_only demo)
      (name_raising PyExc_TypeError) PyExc_TypeError) ∧
   ∃ self',
     statswrapper_vectorcall demo [str_y] 0 kwfail
       = Some (Aborted self' PyExc_TypeError) ∧
     invalid_args self' = invalid_args demo ∧
     total_calls self' = total_calls demo).
Proof.
  intros argv kwnames kwfail. split.
  - assert (Hh : well_formed demo = true ∧
                 call_ok argv 1 kwnames = true ∧
                 headroom demo 3 = true)
      by (repeat split; reflexivity).
    split; [exact Hh|]. destruct Hh as (H1 & H2 & H3).
    destruct (keyword_arguments_lookup demo argv 1 kwnames H1 H2 H3)
      as (Hdel & _ & Hdone & _).
    destruct (Hdone eq_refl eq_refl) as [self' Hcall].
    destruct (Hdel self' _ Hcall) as (_ & _ & Hia & _).
    exists self'. split; [exact Hcall|].
    split; [reflexivity|]. split; [reflexivity|]. exact Hia.
  - pose proof (demo_name_comparison_fails PyExc_TypeError) as Hfails.
    assert (Hh : well_formed demo = true ∧
                 call_ok [str_y] 0 kwfail = true ∧
                 headroom demo 1 = true)
      by (repeat split; reflexivity).
    destruct Hh as (H1 & H2 & H3).
    split; [exact (conj H2 (conj H3 Hfails))|].
    destruct (proj2 (proj2 (proj2
                (keyword_arguments_lookup demo [str_y] 0 kwfail H1 H2 H3)))
                [] (name_raising PyExc_TypeError) [] PyExc_TypeError
                eq_refl Hfails)
      as (self' & e' & Hab & Hia & Htc & He).
    rewrite (He eq_refl eq_refl) in Hab.
    exists self'. auto.
Defined.

(** ** C9 *)

(** The bounds and the monotonicity from the wrapper just constructed. *)
Lemma counters_monotone_and_bounded_witness :
  (0 ≤ error_results demo ≤ total_calls demo ∧
   0 ≤ invalid_args demo ≤ total_calls demo) ∧
  ∀ self', rtc step demo self' ->
    total_calls demo ≤ total_calls self' ∧
    error_results demo ≤ error_results self' ∧
    invalid_args demo ≤ invalid_args self' ∧
    Forall2 grows (args demo) (args self').
Proof.
  apply (counters_monotone_and_bounded demo).
  exact demo_reachable.
Defined.

(** ** C10 *)

(** C10 as stated fails: the positional value of entry [1] meets a fatal
    comparison; the entry is counted once and the call is not forwarded. *)
Lemma duplicate_supply_aborted :
  tracked_at (args demo) (npos_only demo) str_name = Some 1%nat ∧
  ∃ self',
    statswrapper_vectorcall demo
      [str_a; array_raising PyExc_MemoryError; str_y] 2 (Some [str_name])
      = Some (Aborted self' PyExc_MemoryError) ∧
    count <$> args self' = [1; 1; 0].
Proof. split; [vm_compute; reflexivity|]. eexists. split; vm_compute; reflexivity. Qed.

(** Entry [1] supplied positionally (["x"]) and by name (["y"]). *)
Lemma positional_and_keyword_same_entry_witness :
  let argv := [str_a; str_x; str_y] in
  let kwnames := Some [str_name] in
  let a := {| kwname := Some str_name; known_params := Some [str_x; str_y];
              count := 0; param_counts := [0; 0] |} in
  (well_formed demo = true ∧
   call_ok argv 2 kwnames = true ∧
   headroom demo 3 = true ∧
   npos_only demo ≤ 1 < npos demo ∧
   1 < PyVectorcall_NARGS 2 ∧
   tracked_at (args demo) (npos_only demo) str_name = Some 1%nat) ∧
  ∃ self' a',
    statswrapper_vectorcall demo argv 2 kwnames
    = Some (Delegated self' (PyReturn str_a)) ∧
    args self' !! 1%nat = Some a' ∧
    count a' = count a + 2 ∧
    param_counts a' = [1; 1] ∧
    invalid_args self' = invalid_args demo.
Proof.
  intros argv kwnames a.
  assert (Hh : well_formed demo = true ∧
               call_ok argv 2 kwnames = true ∧
               headroom demo 3 = true ∧
               npos_only demo ≤ 1 < npos demo ∧
               1 < PyVectorcall_NARGS 2 ∧
               tracked_at (args demo) (npos_only demo) str_name = Some 1%nat)
    by (repeat split; try reflexivity; vm_compute; discriminate).
  split; [exact Hh|]. destruct Hh as (H1 & H2 & H3 & H4 & H5 & H6).
  destruct (positional_and_keyword_same_entry demo argv 2 kwnames
              1%nat 0%nat str_name a str_x H1 H2 H3 H4 H5
              eq_refl eq_refl H6 eq_refl)
    as (Hdel & Hdone).
  destruct (Hdone eq_refl eq_refl) as [self' Hcall].
  destruct (Hdel self' _ Hcall)
    as (_ & a' & Ha' & Hc & _ & _ & Htwice & Hinv).
  exists self', a'. split; [exact Hcall|]. split; [exact Ha'|].
  split; [apply Htwice; reflexivity|]. split.
  - vm_compute in Hc. injection Hc as <-. reflexivity.
  - apply Hinv; [vm_compute; discriminate | reflexivity].
Defined.

(** * The further properties at work *)

(** A specification that is a string, not a tuple. *)
Lemma stats_wrapper_create_accepts_witness :
  call_ok [OFunc 0; str_a] 2 None = true ∧
  1 ≤ PyVectorcall_NARGS 2 ∧
  stats_wrapper_create [OFunc 0; str_a] 2 None
  = Some (PyRaise PyExc_TypeError).
Proof.
  assert (H1 : 1 ≤ PyVectorcall_NARGS 2) by (vm_compute; discriminate).
  split; [reflexivity|]. split; [exact H1|].
  exact (proj2 (stats_wrapper_create_accepts [OFunc 0; str_a] 2 None eq_refl)
           H1).
Defined.

(** The wrapper of [stats_wrapper(f, ("a", "b"), name=("x", "y"))]. *)
Lemma fresh_wrapper_param_stats_witness :
  length (statswrapper__get_param_stats demo) = 2%nat ∧
  ∀ k nm c kn pcs,
    statswrapper__get_param_stats demo !! k = Some (nm, c, kn, pcs) ->
    c = 0 ∧ pcs = (λ items, replicate (length items) 0) <$> kn.
Proof.
  destruct (fresh_wrapper_param_stats _ _ _ demo demo_created) as [Hl Hs].
  split; [exact Hl|].
  intros k nm c kn pcs Hk. destruct (Hs k nm c kn pcs Hk) as (H1 & _ & _ & H4).
  split; assumption.
Defined.

(** A delegated call, a call stopped by a fatal comparison, a
    reconfiguration and a call with one positional argument too many. *)
Lemma get_counts_after_requests_witness :
  let reqs :=
    [ Invoke [str_a; str_y] 1 (Some [str_name]);
      Invoke [array_raising PyExc_MemoryError] 1 None;
      SetNpos (OValue (VInt 1));
      Invoke [str_b; str_x] 2 None ] in
  ∃ self' log,
    serve demo reqs = Some (self', log) ∧
    statswrapper__get_counts self' = (2, 0, 1) ∧
    ∃ invalid,
      statswrapper__get_counts self'
      = (tally is_forwarded log, tally is_failure log, invalid) ∧
      0 ≤ invalid ≤ tally is_forwarded log.
Proof.
  intros reqs. eexists _, _.
  split; [vm_compute; reflexivity|]. split; [reflexivity|].
  eapply (get_counts_after_requests _ _ _ demo reqs).
  - exact demo_created.
  - vm_compute. reflexivity.
Defined.

(** The keyword [name] made keyword-only by [_set_npos(1)], then a call
    that still passes it positionally. *)
Lemma set_npos_then_call_witness :
  let argv := [str_a; str_x] in
  (well_formed demo = true ∧
   npos_only demo ≤ 1 ≤ Py_SIZE demo - 1 ∧
   call_ok argv 2 None = true ∧
   headroom demo 2 = true) ∧
  ∃ self1 self' res,
    statswrapper__set_npos demo (OValue (VInt 1)) = (self1, Some Py_None, None) ∧
    statswrapper_vectorcall self1 argv 2 None = Some (Delegated self' res) ∧
    invalid_args self' = invalid_args demo + 1 ∧
    count <$> args self' = [1; 0; 0].
Proof.
  intros argv.
  assert (Hh : well_formed demo = true ∧
               npos_only demo ≤ 1 ≤ Py_SIZE demo - 1 ∧
               call_ok argv 2 None = true ∧
               headroom demo 2 = true)
    by (repeat split; try reflexivity; vm_compute; discriminate).
  split; [exact Hh|]. destruct Hh as (H1 & H2 & H3 & H4).
  assert (Hn : PyLong_AsSsize_t (OValue (VInt 1)) = inl 1) by reflexivity.
  destruct (set_npos_then_call demo (OValue (VInt 1)) 1 argv 2 None
              H1 Hn H2 H3 H4)
    as (self1 & out & Hs & _ & _ & _ & Hout & Hdel).
  injection Hs as <-.
  vm_compute in Hout. injection Hout as <-.
  eexists _, _, _. split; [reflexivity|]. split; [vm_compute; reflexivity|].
  split; [|reflexivity].
  exact (proj1 (Hdel _ _ eq_refl)).
Defined.

(** Too many positional arguments, an unknown keyword and a failing
    comparison in one call. *)
Lemma call_stays_in_bounds_witness :
  let argv := [array_raising PyExc_ValueError; str_x; str_y; str_a] in
  let kwnames := Some [OValue (VStr 17 "other")] in
  (well_formed demo = true ∧
   call_ok argv 3 kwnames = true ∧
   headroom demo 4 = true) ∧
  ∃ out,
    statswrapper_vectorcall demo argv 3 kwnames = Some out ∧
    well_formed (match out with Aborted s _ | Delegated s _ => s end) = true.
Proof.
  intros argv kwnames.
  assert (Hh : well_formed demo = true ∧
               call_ok argv 3 kwnames = true ∧
               headroom demo 4 = true)
    by (repeat split; reflexivity).
  split; [exact Hh|]. destruct Hh as (H1 & H2 & H3).
  exact (call_stays_in_bounds demo argv 3 kwnames H1 H2 H3).
Defined.

(** The wrapper after [_set_npos(5)], called with four positional
    arguments: the fourth index is outside the array of three entries. *)
Lemma call_past_the_array_witness :
  let argv := [str_a; str_x; str_y; str_a] in
  (Z.of_nat (length (args (with_npos demo 5))) < npos (with_npos demo 5) ∧
   Z.of_nat (length (args (with_npos demo 5))) < PyVectorcall_NARGS 4) ∧
  statswrapper_vectorcall (with_npos demo 5) argv 4 None = None ∧
  ∀ self' res,
    statswrapper_vectorcall (with_npos demo 5) argv 4 None
    ≠ Some (Delegated self' res).
Proof.
  intros argv.
  assert (Hh : Z.of_nat (length (args (with_npos demo 5)))
               < npos (with_npos demo 5) ∧
               Z.of_nat (length (args (with_npos demo 5)))
               < PyVectorcall_NARGS 4)
    by (split; vm_compute; reflexivity).
  split; [exact Hh|]. split; [vm_compute; reflexivity|].
  destruct Hh as [H1 H2].
  exact (call_past_the_array (with_npos demo 5) argv 4 None H1 H2).
Defined.

(** ["b"] itself, the second known value. *)
Lemma identical_value_is_counted_witness :
  let a0 := {| kwname := None; known_params := Some [str_a; str_b];
               count := 0; param_counts := [0; 0] |} in
  handle_arg_stats a0 str_b
  = Some ({| kwname := None; known_params := Some [str_a; str_b];
             count := 1; param_counts := [0; 1] |}, OK).
Proof.
  intros a0.
  exact (identical_value_is_counted a0 str_b [str_a; str_b] 1%nat
           eq_refl eq_refl eq_refl eq_refl).
Defined.

(** Another string object with the content ["b"]. *)
Lemma handle_arg_stats_refines_spec_witness :
  let a0 := {| kwname := None; known_params := Some [str_a; str_b];
               count := 0; param_counts := [0; 0] |} in
  handle_arg_stats a0 (OValue (VStr 22 "b"))
  = Some ({| kwname := None; known_params := Some [str_a; str_b];
             count := 1; param_counts := [0; 1] |}, OK).
Proof.
  intros a0.
  refine (handle_arg_stats_refines_spec a0 (OValue (VStr 22 "b"))
            eq_refl eq_refl _).
  intros known [= <-]. reflexivity.
Defined.

(** The interned name [name] of the second entry. *)
Lemma identical_name_is_found_witness :
  find_arginfo (args demo) (npos_only demo) str_name = Some (inl 1%nat) ∧
  tracked_at (args demo) (npos_only demo) str_name = Some 1%nat ∧
  npos_only demo ≤ 1.
Proof.
  refine (identical_name_is_found (args demo) (npos_only demo) str_name 1%nat
            _ eq_refl eq_refl).
  vm_compute. discriminate.
Defined.

(** The wrapper before and after [_set_npos(5)]. *)
Lemma shape_is_fixed_witness :
  rtc step demo (with_npos demo 5) ∧
  shape <$> args (with_npos demo 5) = shape <$> args demo ∧
  Py_SIZE (with_npos demo 5) = Py_SIZE demo.
Proof.
  assert (Hs : rtc step demo (with_npos demo 5)).
  { apply rtc_once.
    eapply (step_set_npos demo (OValue (VInt 5))). reflexivity. }
  split; [exact Hs|].
  destruct (shape_is_fixed demo (with_npos demo 5) Hs) as (H1 & _ & _ & H4 & _).
  split; assumption.
Defined.

Lemma entries_stay_consistent_witness :
  Forall (λ a, counts_consistent a ∧ arginfo_ok a = true) (args demo).
Proof. exact (entries_stay_consistent demo demo_reachable). Defined.

(** One positional value and the keyword [name]: the terminator is left
    alone. *)
Lemma delegated_call_frame_witness :
  ∃ self' res,
    statswrapper_vectorcall demo [str_a; str_y] 1 (Some [str_name])
      = Some (Delegated self' res) ∧
    args self' !! 2%nat = Some terminator ∧
    count <$> args self' = [1; 1; 0].
Proof.
  eexists _, _.
  match goal with
  | |- ?call = Some (Delegated ?s ?r) ∧ _ =>
      assert (Hc : call = Some (Delegated s r)) by (vm_compute; reflexivity)
  end.
  split; [exact Hc|]. split; [|reflexivity].
  destruct (delegated_call_frame demo [str_a; str_y] 1 (Some [str_name]) _ _
              Hc 2%nat terminator eq_refl)
    as (a' & Ha' & _ & _ & Hsame).
  rewrite Ha'. f_equal. apply Hsame. reflexivity.
Defined.

(** ["a"] by identity, ["b"] by equality, and a value whose comparison
    raises, counted at the index of ["a"]. *)
Lemma delegated_call_histogram_witness :
  ∃ self' res a',
    statswrapper_vectorcall demo [array_raising PyExc_ValueError] 1 None
      = Some (Delegated self' res) ∧
    args self' !! 0%nat = Some a' ∧
    param_counts a' = [1; 0] ∧
    hits [str_a; str_b] [array_raising PyExc_ValueError] 0 = 1.
Proof.
  eexists _, _, _.
  match goal with
  | |- ?call = Some (Delegated ?s ?r) ∧ _ =>
      assert (Hc : call = Some (Delegated s r)) by (vm_compute; reflexivity)
  end.
  split; [exact Hc|]. split; [reflexivity|]. split; [|reflexivity].
  destruct (proj1 (delegated_call_histogram demo
                     [array_raising PyExc_ValueError] 1 None _ _ Hc)
              0%nat _ [str_a; str_b] eq_refl eq_refl)
    as (a' & Ha' & Hh).
  injection Ha' as <-. reflexivity.
Defined.

